(** * Contact directory: repository layer over an explicit store

    A shallow embedding of [src/repository/contacts.py] and
    [src/repository/birthday.py], and of the path operations of
    [src/routes/] that call them.  The SQL table of contacts is a list of
    rows in insertion order together with the next value of the primary-key
    sequence; the session's statements are functions over that store; the
    exceptions the ORM can raise are values of an error type. *)

From Stdlib Require Import ZArith List String Bool Lia.
Import ListNotations.
Open Scope Z_scope.

(** ** Calendar dates

    [datetime.date]: a year, a month and a day.  Ordinals, comparison and
    the addition of a [timedelta] follow CPython's [datetime] module
    ([_ymd2ord], [_ord2ymd], [date.__add__]). *)
Module Date.

Record t := mk { year : Z; month : Z; day : Z }.

Definition is_leap (y : Z) : bool :=
  (y mod 4 =? 0) && (negb (y mod 100 =? 0) || (y mod 400 =? 0)).

Definition days_before_year (y : Z) : Z :=
  let p := y - 1 in p * 365 + p / 4 - p / 100 + p / 400.

Definition DAYS_IN_MONTH : list Z :=
  [31; 28; 31; 30; 31; 30; 31; 31; 30; 31; 30; 31].

(** [_DAYS_BEFORE_MONTH[m]]: the days of a common year before month [m]. *)
Definition DAYS_BEFORE_MONTH (m : Z) : Z :=
  fold_right Z.add 0 (firstn (Z.to_nat (m - 1)) DAYS_IN_MONTH).

Definition days_before_month (y m : Z) : Z :=
  DAYS_BEFORE_MONTH m + (if (2 <? m) && is_leap y then 1 else 0).

Definition toordinal (d : t) : Z :=
  days_before_year (year d) + days_before_month (year d) (month d) + day d.

Definition DI400Y : Z := days_before_year 401.
Definition DI100Y : Z := days_before_year 101.
Definition DI4Y : Z := days_before_year 5.
Definition MAXORDINAL : Z := 3652059.

Definition fromordinal (n : Z) : t :=
  let n := n - 1 in
  let n400 := n / DI400Y in
  let n := n mod DI400Y in
  let y := n400 * 400 + 1 in
  let n100 := n / DI100Y in
  let n := n mod DI100Y in
  let n4 := n / DI4Y in
  let n := n mod DI4Y in
  let n1 := n / 365 in
  let n := n mod 365 in
  let y := y + n100 * 100 + n4 * 4 + n1 in
  if (n1 =? 4) || (n100 =? 4) then mk (y - 1) 12 31
  else
    let leapyear := (n1 =? 3) && (negb (n4 =? 24) || (n100 =? 3)) in
    let m := Z.shiftr (n + 50) 5 in
    let preceding :=
      DAYS_BEFORE_MONTH m + (if (2 <? m) && leapyear then 1 else 0) in
    if n <? preceding then
      let m := m - 1 in
      let preceding :=
        preceding - (nth (Z.to_nat (m - 1)) DAYS_IN_MONTH 0
                     + (if (m =? 2) && leapyear then 1 else 0)) in
      mk y m (n - preceding + 1)
    else mk y m (n - preceding + 1).

(** [date + timedelta(days = n)]; [None] is Python's [OverflowError]. *)
Definition add_days (d : t) (n : Z) : option t :=
  let o := toordinal d + n in
  if (0 <? o) && (o <=? MAXORDINAL) then Some (fromordinal o) else None.

(** Chronological order, as the comparison of (year, month, day). *)
Definition leb (a b : t) : bool :=
  (year a <? year b)
  || ((year a =? year b)
      && ((month a <? month b)
          || ((month a =? month b) && (day a <=? day b)))).

(** SQL's [x BETWEEN lo AND hi]: both ends belong to the range. *)
Definition between (x lo hi : t) : bool := leb lo x && leb x hi.

End Date.

(** ** Entities and payloads *)

Module User.
(** The repository layer reads only the identifier of the caller. *)
Record t := mk { id : Z }.
End User.

Module Contact.
Record t := mk {
  id : Z;
  first_name : string;
  last_name : string;
  email : string;
  phone_number : string;
  birthday : Date.t;
  address : string;
  notes : string;
  interests : list string;
  is_active : bool;
  user_id : Z
}.

(** Attribute assignments [contact.f = v] of [update_contact]. *)
Definition set_first_name (v : string) (c : t) : t :=
  mk (id c) v (last_name c) (email c) (phone_number c) (birthday c)
     (address c) (notes c) (interests c) (is_active c) (user_id c).
Definition set_last_name (v : string) (c : t) : t :=
  mk (id c) (first_name c) v (email c) (phone_number c) (birthday c)
     (address c) (notes c) (interests c) (is_active c) (user_id c).
Definition set_email (v : string) (c : t) : t :=
  mk (id c) (first_name c) (last_name c) v (phone_number c) (birthday c)
     (address c) (notes c) (interests c) (is_active c) (user_id c).
Definition set_phone_number (v : string) (c : t) : t :=
  mk (id c) (first_name c) (last_name c) (email c) v (birthday c)
     (address c) (notes c) (interests c) (is_active c) (user_id c).
Definition set_birthday (v : Date.t) (c : t) : t :=
  mk (id c) (first_name c) (last_name c) (email c) (phone_number c) v
     (address c) (notes c) (interests c) (is_active c) (user_id c).
Definition set_address (v : string) (c : t) : t :=
  mk (id c) (first_name c) (last_name c) (email c) (phone_number c)
     (birthday c) v (notes c) (interests c) (is_active c) (user_id c).
Definition set_notes (v : string) (c : t) : t :=
  mk (id c) (first_name c) (last_name c) (email c) (phone_number c)
     (birthday c) (address c) v (interests c) (is_active c) (user_id c).
Definition set_interests (v : list string) (c : t) : t :=
  mk (id c) (first_name c) (last_name c) (email c) (phone_number c)
     (birthday c) (address c) (notes c) v (is_active c) (user_id c).
Definition set_is_active (v : bool) (c : t) : t :=
  mk (id c) (first_name c) (last_name c) (email c) (phone_number c)
     (birthday c) (address c) (notes c) (interests c) v (user_id c).
End Contact.

(** The payload of an update: nine values, read attribute by attribute. *)
Module ContactUpdateSchema.
Record t := mk {
  first_name : string;
  last_name : string;
  email : string;
  phone_number : string;
  birthday : Date.t;
  address : string;
  notes : string;
  interests : list string;
  is_active : bool
}.
End ContactUpdateSchema.

(** The payload of a create.  [create_contact] dumps it with
    [exclude_unset = True], so a field the request did not set is left out
    of the constructor's keyword arguments: [None] is such a field. *)
Module ContactSchema.
Record t := mk {
  first_name : option string;
  last_name : option string;
  email : option string;
  phone_number : option string;
  birthday : option Date.t;
  address : option string;
  notes : option string;
  interests : option (list string);
  is_active : option bool
}.
End ContactSchema.

(** ** The store and the session *)

Record DB := mkDB {
  rows : list Contact.t;   (* the table, in insertion order *)
  next_id : Z              (* next value of the primary-key sequence *)
}.

Inductive exn :=
| MultipleResultsFound
| InvalidRequestError
| OverflowError.

Inductive result (A : Type) :=
| Ok (a : A)
| Err (e : exn).
Arguments Ok {A} a.
Arguments Err {A} e.

(** A coroutine of the repository: it runs against the store and leaves a
    store behind, with a value or an exception. *)
Definition Session (A : Type) : Type := DB -> result A * DB.

Definition ret {A} (a : A) : Session A := fun db => (Ok a, db).
Definition raise {A} (e : exn) : Session A := fun db => (Err e, db).
Definition bind {A B} (m : Session A) (k : A -> Session B) : Session B :=
  fun db =>
    match m db with
    | (Ok a, db') => k a db'
    | (Err e, db') => (Err e, db')
    end.
Definition lift {A} (r : result A) : Session A := fun db => (r, db).

Notation "x <- m ;; k" := (bind m (fun x => k))
  (at level 61, m at next level, right associativity).
Notation "m ;;; k" := (bind m (fun _ => k))
  (at level 61, right associativity).

(** *** Statements *)
Module Query.

Record Select := mkSelect {
  whereclause : Contact.t -> bool;
  offset_clause : option Z;
  limit_clause : option Z
}.

Definition select_Contact : Select := mkSelect (fun _ => true) None None.

Definition filter (p : Contact.t -> bool) (q : Select) : Select :=
  mkSelect (fun c => whereclause q c && p c) (offset_clause q) (limit_clause q).

(** [filter_by(user = u)]: the foreign key equals the user's identifier. *)
Definition filter_by_user (u : User.t) : Select -> Select :=
  filter (fun c => Contact.user_id c =? User.id u).

Definition filter_by_id (i : Z) : Select -> Select :=
  filter (fun c => Contact.id c =? i).

Definition offset (n : Z) (q : Select) : Select :=
  mkSelect (whereclause q) (Some n) (limit_clause q).

Definition limit (n : Z) (q : Select) : Select :=
  mkSelect (whereclause q) (offset_clause q) (Some n).

(** OFFSET and LIMIT of a non-negative count.  The routes admit only
    [offset >= 0] and [limit >= 10]; what a negative count does depends on
    the database engine, and the properties below are stated for
    non-negative counts. *)
Definition apply_offset (o : option Z) (l : list Contact.t) : list Contact.t :=
  match o with Some n => skipn (Z.to_nat n) l | None => l end.

Definition apply_limit (o : option Z) (l : list Contact.t) : list Contact.t :=
  match o with Some n => firstn (Z.to_nat n) l | None => l end.

(** The rows a SELECT yields: WHERE, then OFFSET, then LIMIT. *)
Definition run (q : Select) (table : list Contact.t) : list Contact.t :=
  apply_limit (limit_clause q)
    (apply_offset (offset_clause q) (List.filter (whereclause q) table)).

End Query.

(** *** Result objects

    [db.execute] hands back a result that is consumed as it is read: the
    rows not fetched yet.  [scalars()] is a view of the same result, and
    [all()] fetches every remaining row and closes the result set, so that a
    later [scalars().all()] on the same result yields the empty list (the
    documented behaviour of SQLAlchemy's [Result.all]). *)
Definition Result : Type := list Contact.t.

Definition execute (q : Query.Select) : Session Result :=
  fun db => (Ok (Query.run q (rows db)), db).

Definition scalars_all (r : Result) : list Contact.t * Result := (r, []).

Definition scalar_one_or_none (r : Result) : result (option Contact.t) :=
  match r with
  | [] => Ok None
  | [c] => Ok (Some c)
  | _ :: _ :: _ => Err MultipleResultsFound
  end.

(** *** Unit of work *)

(** [db.add(obj); db.commit()]: the INSERT draws the primary key from the
    sequence.  A transient object is a row still waiting for its key. *)
Definition add_commit (obj : Z -> Contact.t) : Session Z :=
  fun db =>
    let pk := next_id db in
    (Ok pk, mkDB (rows db ++ [obj pk]) (pk + 1)).

(** Flushing a modified object: UPDATE ... WHERE id = pk. *)
Definition update_commit (obj : Contact.t) : Session unit :=
  fun db =>
    (Ok tt,
     mkDB (map (fun r => if Contact.id r =? Contact.id obj then obj else r)
               (rows db))
          (next_id db)).

(** [db.delete(obj); db.commit()]: DELETE ... WHERE id = pk. *)
Definition delete_commit (obj : Contact.t) : Session unit :=
  fun db =>
    (Ok tt,
     mkDB (List.filter (fun r => negb (Contact.id r =? Contact.id obj))
                       (rows db))
          (next_id db)).

(** [db.refresh(obj)]: the row is read again by primary key. *)
Definition refresh (pk : Z) : Session Contact.t :=
  fun db =>
    match find (fun r => Contact.id r =? pk) (rows db) with
    | Some r => (Ok r, db)
    | None => (Err InvalidRequestError, db)
    end.

(** ** [src/repository/contacts.py] *)
Module RepositoryContacts.

Definition get_contacts (limit offset : Z) (current_user : User.t)
  : Session (list Contact.t) :=
  let data :=
    Query.limit limit
      (Query.offset offset
         (Query.filter_by_user current_user Query.select_Contact)) in
  contacts <- execute data ;;
  ret (fst (scalars_all contacts)).

Definition get_all_contacts (limit offset : Z) (current_user : User.t)
  : Session (list Contact.t) :=
  let data := Query.limit limit (Query.offset offset Query.select_Contact) in
  contacts <- execute data ;;
  ret (fst (scalars_all contacts)).

Definition get_contact (contact_id : Z) (current_user : User.t)
  : Session (option Contact.t) :=
  let data :=
    Query.filter_by_user current_user
      (Query.filter_by_id contact_id Query.select_Contact) in
  contact <- execute data ;;
  lift (scalar_one_or_none contact).

Section Create.

(** What the table stores in a column that an INSERT leaves out.  The
    table's declaration is not part of the repository layer, so the values
    are a parameter, given in the shape of the nine mutable columns. *)
Variable column_default : ContactUpdateSchema.t.

Definition model_dump_exclude_unset (body : ContactSchema.t) : ContactSchema.t :=
  body.

(** The constructor call of [create_contact]: the dumped fields as keyword
    arguments, and [user = current_user]; the object has no key yet. *)
Definition Contact_init (kwargs : ContactSchema.t) (user : User.t)
  : Z -> Contact.t :=
  fun pk =>
    Contact.mk pk
      (match ContactSchema.first_name kwargs with
       | Some v => v | None => ContactUpdateSchema.first_name column_default end)
      (match ContactSchema.last_name kwargs with
       | Some v => v | None => ContactUpdateSchema.last_name column_default end)
      (match ContactSchema.email kwargs with
       | Some v => v | None => ContactUpdateSchema.email column_default end)
      (match ContactSchema.phone_number kwargs with
       | Some v => v | None => ContactUpdateSchema.phone_number column_default end)
      (match ContactSchema.birthday kwargs with
       | Some v => v | None => ContactUpdateSchema.birthday column_default end)
      (match ContactSchema.address kwargs with
       | Some v => v | None => ContactUpdateSchema.address column_default end)
      (match ContactSchema.notes kwargs with
       | Some v => v | None => ContactUpdateSchema.notes column_default end)
      (match ContactSchema.interests kwargs with
       | Some v => v | None => ContactUpdateSchema.interests column_default end)
      (match ContactSchema.is_active kwargs with
       | Some v => v | None => ContactUpdateSchema.is_active column_default end)
      (User.id user).

Definition create_contact (body : ContactSchema.t) (current_user : User.t)
  : Session Contact.t :=
  let contact := Contact_init (model_dump_exclude_unset body) current_user in
  pk <- add_commit contact ;;
  contact <- refresh pk ;;
  ret contact.

End Create.

Definition update_contact (contact_id : Z) (body : ContactUpdateSchema.t)
    (current_user : User.t) : Session (option Contact.t) :=
  let data :=
    Query.filter_by_user current_user
      (Query.filter_by_id contact_id Query.select_Contact) in
  result <- execute data ;;
  contact <- lift (scalar_one_or_none result) ;;
  match contact with
  | Some contact =>
      let contact := Contact.set_first_name (ContactUpdateSchema.first_name body) contact in
      let contact := Contact.set_last_name (ContactUpdateSchema.last_name body) contact in
      let contact := Contact.set_email (ContactUpdateSchema.email body) contact in
      let contact := Contact.set_phone_number (ContactUpdateSchema.phone_number body) contact in
      let contact := Contact.set_birthday (ContactUpdateSchema.birthday body) contact in
      let contact := Contact.set_address (ContactUpdateSchema.address body) contact in
      let contact := Contact.set_notes (ContactUpdateSchema.notes body) contact in
      let contact := Contact.set_interests (ContactUpdateSchema.interests body) contact in
      let contact := Contact.set_is_active (ContactUpdateSchema.is_active body) contact in
      update_commit contact ;;;
      contact <- refresh (Contact.id contact) ;;
      ret (Some contact)
  | None => ret None
  end.

Definition delete_contact (contact_id : Z) (current_user : User.t)
  : Session (option Contact.t) :=
  let data :=
    Query.filter_by_user current_user
      (Query.filter_by_id contact_id Query.select_Contact) in
  contact <- execute data ;;
  contact <- lift (scalar_one_or_none contact) ;;
  match contact with
  | Some c => delete_commit c ;;; ret (Some c)
  | None => ret None
  end.

Definition delete_all_contact (contact_id : Z) (current_user : User.t)
  : Session (option Contact.t) :=
  let data := Query.filter_by_id contact_id Query.select_Contact in
  contact <- execute data ;;
  contact <- lift (scalar_one_or_none contact) ;;
  match contact with
  | Some c => delete_commit c ;;; ret (Some c)
  | None => ret None
  end.

End RepositoryContacts.

(** ** [src/repository/birthday.py] *)
Module RepositoryBirthday.

(** The SELECT of the function, for a window that ends at [future_date]. *)
Definition upcoming_select (current_date future_date : Date.t)
    (limit offset : Z) (current_user : User.t) : Query.Select :=
  Query.limit limit
    (Query.offset offset
       (Query.filter_by_user current_user
          (Query.filter
             (fun c => Date.between (Contact.birthday c) current_date future_date)
             Query.select_Contact))).

(** [today] is the reading of the clock, [datetime.now().date()].  The
    argument [future_date] is rebound before it is read; the result of the
    query is read twice, and the second reading is the one returned. *)
Definition get_contact_with_upcoming_birthday (upcoming_days limit offset : Z)
    (current_user : User.t) (future_date : option Date.t) (today : Date.t)
  : Session (list Contact.t) :=
  let current_date := today in
  match Date.add_days current_date upcoming_days with
  | None => raise OverflowError
  | Some future_date =>
      let data :=
        upcoming_select current_date future_date limit offset current_user in
      contacts <- execute data ;;
      let (qqqq, contacts) := scalars_all contacts in
      let (all, contacts) := scalars_all contacts in
      ret all
  end.

End RepositoryBirthday.

(** ** [src/routes/contacts.py] and [src/routes/birthday.py]

    A path operation returns a value or raises.  The constraints declared on
    its parameters ([Path(ge = 1)], [Query(10, ge = 10, le = 200)], ...) are
    checked before its body runs: a value outside them is a validation error
    and the body is not entered; a query parameter that the request leaves
    out takes the declared default.  An [HTTPException] carries the status
    code and the detail sent to the client; an exception of the repository
    is not caught by any path operation. *)
Inductive raised :=
| RequestValidationError
| HTTPException (status_code : Z) (detail : string)
| Uncaught (e : exn).

Inductive reply (A : Type) :=
| Return (a : A)
| Raise (r : raised).
Arguments Return {A} a.
Arguments Raise {A} r.

Definition Handler (A : Type) : Type := DB -> reply A * DB.

Definition HTTP_404_NOT_FOUND : Z := 404.

(** [Query(default, ...)]: the value of a query parameter. *)
Definition query_value (default : Z) (given : option Z) : Z :=
  match given with Some v => v | None => default end.

(** The declared constraints guard the body. *)
Definition validated {A} (ok : bool) (body : Handler A) : Handler A :=
  fun db => if ok then body db else (Raise RequestValidationError, db).

(** [x = await m], followed by the rest of the body. *)
Definition await {A B} (m : Session A) (k : A -> reply B) : Handler B :=
  fun db =>
    match m db with
    | (Ok a, db') => (k a, db')
    | (Err e, db') => (Raise (Uncaught e), db')
    end.

Definition limit_ok (limit : Z) : bool := (10 <=? limit) && (limit <=? 200).
Definition offset_ok (offset : Z) : bool := 0 <=? offset.
Definition contact_id_ok (contact_id : Z) : bool := 1 <=? contact_id.
Definition upcoming_days_ok (n : Z) : bool := (1 <=? n) && (n <=? 365).

Module RoutesContacts.

Definition get_contracts (limit offset : option Z) (current_user : User.t)
  : Handler (list Contact.t) :=
  let limit := query_value 10 limit in
  let offset := query_value 0 offset in
  validated (limit_ok limit && offset_ok offset)
    (await (RepositoryContacts.get_contacts limit offset current_user)
       (fun contacts => Return contacts)).

(** The body of [get_all_contracts]; the role dependency of the route has
    admitted the caller before it runs. *)
Definition get_all_contracts (limit offset : option Z) (current_user : User.t)
  : Handler (list Contact.t) :=
  let limit := query_value 10 limit in
  let offset := query_value 0 offset in
  validated (limit_ok limit && offset_ok offset)
    (await (RepositoryContacts.get_all_contacts limit offset current_user)
       (fun contacts => Return contacts)).

Definition get_contact (contact_id : Z) (current_user : User.t)
  : Handler Contact.t :=
  validated (contact_id_ok contact_id)
    (await (RepositoryContacts.get_contact contact_id current_user)
       (fun contact =>
          match contact with
          | None => Raise (HTTPException HTTP_404_NOT_FOUND "NOT FOUND")
          | Some contact => Return contact
          end)).

Definition create_contact (column_default : ContactUpdateSchema.t)
    (body : ContactSchema.t) (current_user : User.t) : Handler Contact.t :=
  await (RepositoryContacts.create_contact column_default body current_user)
    (fun contact => Return contact).

Definition update_contact (body : ContactUpdateSchema.t) (contact_id : Z)
    (current_user : User.t) : Handler Contact.t :=
  validated (contact_id_ok contact_id)
    (await (RepositoryContacts.update_contact contact_id body current_user)
       (fun contact =>
          match contact with
          | None => Raise (HTTPException HTTP_404_NOT_FOUND "NOT FOUND")
          | Some contact => Return contact
          end)).

Definition delete_contact (contact_id : Z) (current_user : User.t)
  : Handler (option Contact.t) :=
  validated (contact_id_ok contact_id)
    (await (RepositoryContacts.delete_contact contact_id current_user)
       (fun contact => Return contact)).

(** The body of [delete_all_contact], behind the same role dependency. *)
Definition delete_all_contact (contact_id : Z) (current_user : User.t)
  : Handler (option Contact.t) :=
  validated (contact_id_ok contact_id)
    (await (RepositoryContacts.delete_all_contact contact_id current_user)
       (fun contact => Return contact)).

End RoutesContacts.

Module RoutesBirthday.

(** [today] is the clock reading handed on to the repository function,
    which is called without [future_date]. *)
Definition get_contact_with_upcoming_birthday
    (upcoming_days limit offset : option Z) (current_user : User.t)
    (today : Date.t) : Handler (list Contact.t) :=
  let upcoming_days := query_value 7 upcoming_days in
  let limit := query_value 10 limit in
  let offset := query_value 0 offset in
  validated (upcoming_days_ok upcoming_days && limit_ok limit && offset_ok offset)
    (await (RepositoryBirthday.get_contact_with_upcoming_birthday
              upcoming_days limit offset current_user None today)
       (fun contacts => Return contacts)).

End RoutesBirthday.

Import RepositoryContacts RepositoryBirthday.

(** ** Sample data *)

Definition d (y m dd : Z) : Date.t := Date.mk y m dd.

Definition alice : User.t := User.mk 1.
Definition bob : User.t := User.mk 2.

Definition sample (i : Z) (bd : Date.t) (owner : User.t) : Contact.t :=
  Contact.mk i "Ann"%string "Lee"%string "ann@example.org"%string
    "555-0100"%string bd "1 Main St"%string "met at work"%string
    ["chess"%string; "tea"%string] true (User.id owner).

Definition sample_db : DB :=
  mkDB [sample 1 (d 1990 1 3) alice; sample 2 (d 2025 1 3) alice;
        sample 3 (d 1985 6 1) bob] 4.

(** A payload for an update, also used as the columns' defaults. *)
Definition new_values : ContactUpdateSchema.t :=
  ContactUpdateSchema.mk "Bea"%string "Ray"%string "bea@example.org"%string
    "555-0199"%string (d 1991 2 14) "2 High St"%string "moved"%string
    ["go"%string] false.

(** A payload for a create; the notes are not submitted. *)
Definition submitted_values : ContactSchema.t :=
  ContactSchema.mk (Some "Cy"%string) (Some "Orr"%string)
    (Some "cy@example.org"%string) (Some "555-0123"%string)
    (Some (d 2000 7 9)) (Some "3 Low Rd"%string) None
    (Some ["jazz"%string]) (Some true).

(** ** Histories of writes

    The four writing operations of the repository, as requests, and the
    store that a history of them leaves. *)
Inductive request :=
| Create (column_default : ContactUpdateSchema.t) (body : ContactSchema.t)
         (u : User.t)
| Update (contact_id : Z) (body : ContactUpdateSchema.t) (u : User.t)
| Delete (contact_id : Z) (u : User.t)
| DeleteAll (contact_id : Z) (u : User.t).

Definition serve (db : DB) (r : request) : DB :=
  match r with
  | Create column_default body u => snd (create_contact column_default body u db)
  | Update contact_id body u => snd (update_contact contact_id body u db)
  | Delete contact_id u => snd (delete_contact contact_id u db)
  | DeleteAll contact_id u => snd (delete_all_contact contact_id u db)
  end.

Definition empty_db : DB := mkDB [] 1.

(** A calendar date that [datetime.now().date()] can be, short of the last
    two years of the calendar. *)
Definition plausible_today (t : Date.t) : Prop :=
  1 <= Date.year t <= 9997 /\ 1 <= Date.month t <= 12 /\ 1 <= Date.day t <= 31.

(** The caller's rows, in table order. *)
Definition owned_by (u : User.t) (table : list Contact.t) : list Contact.t :=
  filter (fun c => Contact.user_id c =? User.id u) table.

(** ** Well-formed stores

    The identifier is the primary key of the table: no two rows share it,
    and every key in use was drawn from the sequence. *)
Definition wf (db : DB) : Prop :=
  NoDup (map Contact.id (rows db))
  /\ Forall (fun c => Contact.id c < next_id db) (rows db).

(** A row that the pair (identifier, owner) selects. *)
Definition selected (contact_id : Z) (u : User.t) (c : Contact.t) : Prop :=
  Contact.id c = contact_id /\ Contact.user_id c = User.id u.

(** The record that [update_contact] leaves in place of [c]. *)
Definition replaced (body : ContactUpdateSchema.t) (c : Contact.t) : Contact.t :=
  Contact.mk (Contact.id c)
    (ContactUpdateSchema.first_name body) (ContactUpdateSchema.last_name body)
    (ContactUpdateSchema.email body) (ContactUpdateSchema.phone_number body)
    (ContactUpdateSchema.birthday body) (ContactUpdateSchema.address body)
    (ContactUpdateSchema.notes body) (ContactUpdateSchema.interests body)
    (ContactUpdateSchema.is_active body) (Contact.user_id c).

(** A stored value agrees with a submitted one: equal to it when the field
    was submitted. *)
Definition agrees {A} (submitted : option A) (stored : A) : Prop :=
  forall v, submitted = Some v -> stored = v.

Definition as_submitted (body : ContactSchema.t) (c : Contact.t) : Prop :=
  agrees (ContactSchema.first_name body) (Contact.first_name c)
  /\ agrees (ContactSchema.last_name body) (Contact.last_name c)
  /\ agrees (ContactSchema.email body) (Contact.email c)
  /\ agrees (ContactSchema.phone_number body) (Contact.phone_number c)
  /\ agrees (ContactSchema.birthday body) (Contact.birthday c)
  /\ agrees (ContactSchema.address body) (Contact.address c)
  /\ agrees (ContactSchema.notes body) (Contact.notes c)
  /\ agrees (ContactSchema.interests body) (Contact.interests c)
  /\ agrees (ContactSchema.is_active body) (Contact.is_active c).

(** ** Lists *)
Section ListFacts.

Context {A : Type}.

Lemma In_firstn (n : nat) (l : list A) (x : A) : In x (firstn n l) -> In x l.
Proof.
  intro H. rewrite <- (firstn_skipn n l). apply in_or_app. now left.
Qed.

Lemma In_skipn (n : nat) (l : list A) (x : A) : In x (skipn n l) -> In x l.
Proof.
  intro H. rewrite <- (firstn_skipn n l). apply in_or_app. now right.
Qed.

Lemma filter_nil_iff (p : A -> bool) (l : list A) :
  (forall x, In x l -> p x = false) -> filter p l = [].
Proof.
  induction l as [|a l IH]; simpl; intro H; [reflexivity|].
  rewrite (H a) by now left. apply IH. intros x Hx. apply H. now right.
Qed.

(** A key that no two elements share selects at most one element. *)
Lemma filter_key_singleton (key : A -> Z) (p : A -> bool) (l : list A) (c : A) :
  NoDup (map key l) ->
  In c l ->
  p c = true ->
  (forall x, In x l -> p x = true -> key x = key c) ->
  filter p l = [c].
Proof.
  induction l as [|a l IH]; simpl; intros ND Hin Hp Hkey; [contradiction|].
  apply NoDup_cons_iff in ND. destruct ND as [Hna ND].
  destruct Hin as [->|Hin].
  - rewrite Hp. f_equal. apply filter_nil_iff. intros x Hx.
    destruct (p x) eqn:E; [|reflexivity].
    exfalso. apply Hna. rewrite <- (Hkey x (or_intror Hx) E).
    now apply in_map.
  - destruct (p a) eqn:E.
    + exfalso. apply Hna. rewrite (Hkey a (or_introl eq_refl) E).
      now apply in_map.
    + apply IH; auto.
Qed.

End ListFacts.

(** ** Lookups *)

Lemma selected_iff (contact_id : Z) (u : User.t) (c : Contact.t) :
  (Contact.id c =? contact_id) && (Contact.user_id c =? User.id u) = true
  <-> selected contact_id u c.
Proof.
  unfold selected. rewrite andb_true_iff, !Z.eqb_eq. tauto.
Qed.

Lemma run_by_pair (contact_id : Z) (u : User.t) (l : list Contact.t) :
  Query.run
    (Query.filter_by_user u (Query.filter_by_id contact_id Query.select_Contact)) l
  = filter (fun c => (Contact.id c =? contact_id)
                     && (Contact.user_id c =? User.id u)) l.
Proof.
  unfold Query.run. simpl. apply filter_ext. intro c. reflexivity.
Qed.

Lemma run_by_id (contact_id : Z) (l : list Contact.t) :
  Query.run (Query.filter_by_id contact_id Query.select_Contact) l
  = filter (fun c => Contact.id c =? contact_id) l.
Proof.
  unfold Query.run. simpl. apply filter_ext. intro c. reflexivity.
Qed.

Lemma pair_lookup_absent (contact_id : Z) (u : User.t) (l : list Contact.t) :
  (forall c, In c l -> ~ selected contact_id u c) ->
  Query.run
    (Query.filter_by_user u (Query.filter_by_id contact_id Query.select_Contact)) l
  = [].
Proof.
  intro H. rewrite run_by_pair. apply filter_nil_iff. intros c Hc.
  apply not_true_is_false. rewrite selected_iff. now apply H.
Qed.

Lemma pair_lookup_present (contact_id : Z) (u : User.t) (l : list Contact.t)
    (c : Contact.t) :
  NoDup (map Contact.id l) -> In c l -> selected contact_id u c ->
  Query.run
    (Query.filter_by_user u (Query.filter_by_id contact_id Query.select_Contact)) l
  = [c].
Proof.
  intros ND Hin Hsel. rewrite run_by_pair.
  apply (filter_key_singleton Contact.id); auto.
  - now apply selected_iff.
  - intros x _ Hx. apply selected_iff in Hx.
    destruct Hx as [Hx _], Hsel as [Hc _]. congruence.
Qed.

(** Under the key constraint a lookup by pair never meets two rows. *)
Lemma pair_lookup_cases (contact_id : Z) (u : User.t) (l : list Contact.t) :
  NoDup (map Contact.id l) ->
  let found :=
    Query.run
      (Query.filter_by_user u
         (Query.filter_by_id contact_id Query.select_Contact)) l in
  (found = [] /\ forall c, In c l -> ~ selected contact_id u c)
  \/ (exists c, found = [c] /\ In c l /\ selected contact_id u c).
Proof.
  intros ND found. subst found.
  destruct (filter (fun c => (Contact.id c =? contact_id)
                             && (Contact.user_id c =? User.id u)) l)
    as [|c rest] eqn:E.
  - left. split; [now rewrite run_by_pair|].
    intros c Hc Hsel. apply selected_iff in Hsel.
    assert (Hin : In c []) by (rewrite <- E; apply filter_In; auto).
    exact Hin.
  - right. exists c.
    assert (Hc : In c (c :: rest)) by now left.
    rewrite <- E in Hc. apply filter_In in Hc. destruct Hc as [Hin Hp].
    apply selected_iff in Hp.
    split; [|split]; auto.
    now apply pair_lookup_present.
Qed.

Lemma id_lookup_absent (contact_id : Z) (l : list Contact.t) :
  (forall c, In c l -> Contact.id c <> contact_id) ->
  Query.run (Query.filter_by_id contact_id Query.select_Contact) l = [].
Proof.
  intro H. rewrite run_by_id. apply filter_nil_iff. intros c Hc.
  apply Z.eqb_neq. now apply H.
Qed.

Lemma id_lookup_present (contact_id : Z) (l : list Contact.t) (c : Contact.t) :
  NoDup (map Contact.id l) -> In c l -> Contact.id c = contact_id ->
  Query.run (Query.filter_by_id contact_id Query.select_Contact) l = [c].
Proof.
  intros ND Hin Hid. rewrite run_by_id.
  apply (filter_key_singleton Contact.id); auto.
  - now apply Z.eqb_eq.
  - intros x _ Hx. apply Z.eqb_eq in Hx. congruence.
Qed.

(** Rows that survive a DELETE by key do not carry the key. *)
Lemma deleted_key_gone (k : Z) (l : list Contact.t) (r : Contact.t) :
  In r (filter (fun x => negb (Contact.id x =? k)) l) -> Contact.id r <> k.
Proof.
  intro H. apply filter_In in H. destruct H as [_ H].
  apply negb_true_iff in H. now apply Z.eqb_neq.
Qed.

(** After an UPDATE by key the row read back is the one written. *)
Lemma find_replaced (k : Z) (c' : Contact.t) (l : list Contact.t) :
  Contact.id c' = k ->
  (exists r, In r l /\ Contact.id r = k) ->
  find (fun r => Contact.id r =? k)
       (map (fun r => if Contact.id r =? k then c' else r) l)
  = Some c'.
Proof.
  intros Hk [r [Hin Hr]].
  induction l as [|a l IH]; simpl in *; [contradiction|].
  destruct (Contact.id a =? k) eqn:E.
  - rewrite Hk, Z.eqb_refl. reflexivity.
  - rewrite E. apply IH. destruct Hin as [->|Hin]; auto.
    apply Z.eqb_neq in E. contradiction.
Qed.

(** After an INSERT with a fresh key the row read back is the new one. *)
Lemma find_inserted (k : Z) (c : Contact.t) (l : list Contact.t) :
  Contact.id c = k ->
  Forall (fun r => Contact.id r < k) l ->
  find (fun r => Contact.id r =? k) (l ++ [c]) = Some c.
Proof.
  intros Hk HF. induction HF as [|a l Ha HF IH]; simpl.
  - rewrite Hk, Z.eqb_refl. reflexivity.
  - replace (Contact.id a =? k) with false; [exact IH|].
    symmetry. apply Z.eqb_neq. lia.
Qed.

Lemma sample_db_wf : wf sample_db.
Proof.
  split.
  - simpl. repeat constructor; simpl; intuition discriminate.
  - repeat constructor; simpl; lia.
Qed.

(** ** Get-one *)

(** C3: [get_contact] returns [None] whenever no row has both the given
    identifier and the given owner; in particular a row with that identifier
    owned by someone else is not reported. *)
Theorem get_contact_absent (db : DB) (contact_id : Z) (u : User.t) :
  (forall c, In c (rows db) -> ~ selected contact_id u c) ->
  get_contact contact_id u db = (Ok None, db).
Proof.
  intro H. unfold get_contact, bind, execute, lift.
  rewrite (pair_lookup_absent _ _ _ H). reflexivity.
Qed.

(** Contact 3 exists and belongs to bob; alice asks for it. *)
Lemma get_contact_absent_witness :
  In (sample 3 (d 1985 6 1) bob) (rows sample_db)
  /\ get_contact 3 alice sample_db = (Ok None, sample_db).
Proof.
  split.
  - simpl. tauto.
  - apply (get_contact_absent sample_db 3 alice).
    unfold selected. simpl.
    intros c [<-|[<-|[<-|[]]]]; simpl; intros [H1 H2]; discriminate.
Defined.

(** ** List-own *)

(** C4: for non-negative [limit] and [offset], [get_contacts] returns a
    list, and every contact in it is owned by the caller. *)
Theorem get_contacts_owner_scoped (db : DB) (limit offset : Z) (u : User.t) :
  0 <= limit -> 0 <= offset ->
  exists l,
    get_contacts limit offset u db = (Ok l, db)
    /\ Forall (fun c => Contact.user_id c = User.id u) l.
Proof.
  intros _ _. unfold get_contacts, bind, execute, ret, scalars_all. simpl.
  eexists. split; [reflexivity|].
  apply Forall_forall. intros c Hc.
  unfold Query.run in Hc. simpl in Hc.
  apply In_firstn, In_skipn, filter_In in Hc. destruct Hc as [_ Hc].
  simpl in Hc. now apply Z.eqb_eq in Hc.
Qed.

Lemma get_contacts_owner_scoped_witness :
  exists l,
    get_contacts 10 0 alice sample_db = (Ok l, sample_db)
    /\ Forall (fun c => Contact.user_id c = User.id alice) l.
Proof.
  apply (get_contacts_owner_scoped sample_db 10 0 alice); lia.
Defined.

(** ** The key constraint is kept by every write *)

Lemma NoDup_map_filter {A} (key : A -> Z) (p : A -> bool) (l : list A) :
  NoDup (map key l) -> NoDup (map key (filter p l)).
Proof.
  induction l as [|a l IH]; simpl; intro ND; [constructor|].
  apply NoDup_cons_iff in ND. destruct ND as [Hna ND].
  destruct (p a); simpl; auto.
  constructor; auto.
  intro Hin. apply Hna. apply in_map_iff in Hin.
  destruct Hin as [x [Hx Hin]]. apply filter_In in Hin.
  rewrite <- Hx. apply in_map. tauto.
Qed.

Lemma map_id_replaced (k : Z) (c' : Contact.t) (l : list Contact.t) :
  Contact.id c' = k ->
  map Contact.id (map (fun r => if Contact.id r =? k then c' else r) l)
  = map Contact.id l.
Proof.
  intro Hk. rewrite map_map. apply map_ext. intro r.
  destruct (Contact.id r =? k) eqn:E; [|reflexivity].
  apply Z.eqb_eq in E. congruence.
Qed.

Lemma wf_empty : wf (mkDB [] 1).
Proof. split; constructor. Qed.

Lemma wf_insert (db : DB) (c : Contact.t) :
  wf db -> Contact.id c = next_id db ->
  wf (mkDB (rows db ++ [c]) (next_id db + 1)).
Proof.
  intros [ND HF] Hc. split; simpl.
  - rewrite map_app. simpl. apply NoDup_app; [exact ND| |].
    + repeat constructor. simpl. tauto.
    + intros k Hk [<-|[]]. apply in_map_iff in Hk.
      destruct Hk as [r [Hr Hin]].
      rewrite Forall_forall in HF. specialize (HF r Hin). lia.
  - apply Forall_app. split.
    + eapply Forall_impl; [|exact HF]. simpl. intros; lia.
    + repeat constructor. lia.
Qed.

Lemma wf_delete (db : DB) (p : Contact.t -> bool) :
  wf db -> wf (mkDB (filter p (rows db)) (next_id db)).
Proof.
  intros [ND HF]. split; simpl.
  - now apply NoDup_map_filter.
  - apply Forall_forall. intros r Hr. apply filter_In in Hr.
    rewrite Forall_forall in HF. apply HF. tauto.
Qed.

Lemma wf_update (db : DB) (k : Z) (c' : Contact.t) :
  wf db -> Contact.id c' = k ->
  wf (mkDB (map (fun r => if Contact.id r =? k then c' else r) (rows db))
           (next_id db)).
Proof.
  intros [ND HF] Hk. split; simpl.
  - now rewrite map_id_replaced.
  - rewrite Forall_forall in *. intros r Hr.
    assert (Hid : In (Contact.id r) (map Contact.id (rows db))).
    { rewrite <- (map_id_replaced k c' (rows db) Hk). now apply in_map. }
    apply in_map_iff in Hid. destruct Hid as [x [Hx Hin]].
    rewrite <- Hx. now apply HF.
Qed.

(** ** Update *)

(** C5: when no row has the given identifier and owner, [update_contact]
    returns [None] and the store it leaves is the store it was given. *)
Theorem update_contact_absent (db : DB) (contact_id : Z)
    (body : ContactUpdateSchema.t) (u : User.t) :
  (forall c, In c (rows db) -> ~ selected contact_id u c) ->
  update_contact contact_id body u db = (Ok None, db).
Proof.
  intro H. unfold update_contact, bind, execute, lift.
  rewrite (pair_lookup_absent _ _ _ H). reflexivity.
Qed.

(** Bob updates contact 1, which is alice's. *)
Lemma update_contact_absent_witness :
  update_contact 1 new_values bob sample_db = (Ok None, sample_db).
Proof.
  apply (update_contact_absent sample_db 1 new_values bob).
  unfold selected. simpl.
  intros c [<-|[<-|[<-|[]]]]; simpl; intros [H1 H2]; discriminate.
Defined.

(** The store and the value that an update of a selected row produces. *)
Lemma update_contact_full_replace_aux (db : DB) (contact_id : Z)
    (body : ContactUpdateSchema.t) (u : User.t) (c : Contact.t) :
  wf db -> In c (rows db) -> selected contact_id u c ->
  update_contact contact_id body u db
  = (Ok (Some (replaced body c)),
     mkDB (map (fun r => if Contact.id r =? contact_id
                         then replaced body c else r) (rows db))
          (next_id db)).
Proof.
  intros [ND _] Hin Hsel. unfold update_contact, bind, execute, lift.
  rewrite (pair_lookup_present _ _ _ c ND Hin Hsel). simpl.
  destruct Hsel as [Hid _]. subst contact_id.
  unfold refresh, update_commit, ret. simpl.
  fold (replaced body c).
  rewrite find_replaced; [reflexivity|reflexivity|].
  exists c. auto.
Qed.

(** C6: when a row has the given identifier and owner, [update_contact]
    writes all nine mutable fields from the payload, keeps the identifier and
    the owner, leaves the other rows as they were, and returns the updated
    record. *)
Theorem update_contact_full_replace (db : DB) (contact_id : Z)
    (body : ContactUpdateSchema.t) (u : User.t) (c : Contact.t) :
  wf db -> In c (rows db) -> selected contact_id u c ->
  exists c',
    update_contact contact_id body u db
    = (Ok (Some c'),
       mkDB (map (fun r => if Contact.id r =? contact_id then c' else r)
                 (rows db))
            (next_id db))
    /\ Contact.id c' = Contact.id c
    /\ Contact.user_id c' = Contact.user_id c
    /\ Contact.first_name c' = ContactUpdateSchema.first_name body
    /\ Contact.last_name c' = ContactUpdateSchema.last_name body
    /\ Contact.email c' = ContactUpdateSchema.email body
    /\ Contact.phone_number c' = ContactUpdateSchema.phone_number body
    /\ Contact.birthday c' = ContactUpdateSchema.birthday body
    /\ Contact.address c' = ContactUpdateSchema.address body
    /\ Contact.notes c' = ContactUpdateSchema.notes body
    /\ Contact.interests c' = ContactUpdateSchema.interests body
    /\ Contact.is_active c' = ContactUpdateSchema.is_active body.
Proof.
  intros Hwf Hin Hsel. exists (replaced body c).
  split; [now apply update_contact_full_replace_aux|].
  repeat split.
Qed.

Lemma update_contact_full_replace_witness :
  exists c',
    update_contact 1 new_values alice sample_db
    = (Ok (Some c'),
       mkDB (map (fun r => if Contact.id r =? 1 then c' else r)
                 (rows sample_db))
            (next_id sample_db))
    /\ Contact.id c' = 1
    /\ Contact.user_id c' = 1
    /\ Contact.first_name c' = "Bea"%string
    /\ Contact.last_name c' = "Ray"%string
    /\ Contact.email c' = "bea@example.org"%string
    /\ Contact.phone_number c' = "555-0199"%string
    /\ Contact.birthday c' = d 1991 2 14
    /\ Contact.address c' = "2 High St"%string
    /\ Contact.notes c' = "moved"%string
    /\ Contact.interests c' = ["go"%string]
    /\ Contact.is_active c' = false.
Proof.
  apply (update_contact_full_replace sample_db 1 new_values alice
           (sample 1 (d 1990 1 3) alice)).
  - exact sample_db_wf.
  - simpl. tauto.
  - split; reflexivity.
Defined.

(** ** Delete-own *)

(** C7: on a well-formed store [delete_contact] returns, and [get_contact]
    with the same identifier and owner on the store it leaves returns
    [None]. *)
Theorem delete_contact_then_get_contact (db : DB) (contact_id : Z) (u : User.t) :
  wf db ->
  exists r db',
    delete_contact contact_id u db = (Ok r, db')
    /\ get_contact contact_id u db' = (Ok None, db').
Proof.
  intros [ND _].
  destruct (pair_lookup_cases contact_id u (rows db) ND)
    as [[E Hnone]|[c [E [Hin Hsel]]]].
  - exists None, db. split.
    + unfold delete_contact, bind, execute, lift. rewrite E. reflexivity.
    + unfold get_contact, bind, execute, lift. rewrite E. reflexivity.
  - eexists (Some c), _. split.
    + unfold delete_contact, bind, execute, lift. rewrite E. reflexivity.
    + unfold get_contact, bind, execute, lift. cbn [rows].
      rewrite pair_lookup_absent; [reflexivity|].
      intros r Hr [Hid _]. apply deleted_key_gone in Hr.
      destruct Hsel as [Hc _]. congruence.
Qed.

Lemma delete_contact_then_get_contact_witness :
  exists r db',
    delete_contact 2 alice sample_db = (Ok r, db')
    /\ get_contact 2 alice db' = (Ok None, db').
Proof.
  apply (delete_contact_then_get_contact sample_db 2 alice).
  exact sample_db_wf.
Defined.

(** ** Create *)

(** C8: on a well-formed store [create_contact] returns a record with a
    fresh identifier, owned by the caller, whose fields are the submitted
    values, and [get_contact] with that identifier and the same owner on the
    store it leaves returns that record. *)
Theorem create_contact_then_get_contact (column_default : ContactUpdateSchema.t)
    (db : DB) (body : ContactSchema.t) (u : User.t) :
  wf db ->
  exists c db',
    create_contact column_default body u db = (Ok c, db')
    /\ get_contact (Contact.id c) u db' = (Ok (Some c), db')
    /\ Contact.id c = next_id db
    /\ ~ In (Contact.id c) (map Contact.id (rows db))
    /\ Contact.user_id c = User.id u
    /\ as_submitted body c.
Proof.
  intros Hwf.
  set (c := Contact_init column_default (model_dump_exclude_unset body) u
              (next_id db)).
  assert (Hc : Contact.id c = next_id db) by reflexivity.
  pose proof (wf_insert db c Hwf Hc) as [ND' _].
  destruct Hwf as [ND HF].
  exists c, (mkDB (rows db ++ [c]) (next_id db + 1)).
  split; [|split; [|split; [|split; [|split]]]].
  - unfold create_contact, bind, add_commit, refresh, ret. simpl.
    fold c. rewrite (find_inserted (next_id db) c (rows db) Hc HF).
    reflexivity.
  - unfold get_contact, bind, execute, lift. cbn [rows].
    rewrite (pair_lookup_present (Contact.id c) u (rows db ++ [c]) c ND').
    + reflexivity.
    + apply in_or_app. right. now left.
    + split; reflexivity.
  - exact Hc.
  - rewrite Hc. intro Hin. apply in_map_iff in Hin.
    destruct Hin as [r [Hr Hin]].
    rewrite Forall_forall in HF. specialize (HF r Hin). lia.
  - reflexivity.
  - unfold as_submitted, agrees, c, model_dump_exclude_unset. simpl.
    repeat split; intros v Hv; rewrite Hv; reflexivity.
Qed.

Lemma create_contact_then_get_contact_witness :
  exists c db',
    create_contact new_values submitted_values bob sample_db = (Ok c, db')
    /\ get_contact (Contact.id c) bob db' = (Ok (Some c), db')
    /\ Contact.id c = 4
    /\ ~ In (Contact.id c) (map Contact.id (rows sample_db))
    /\ Contact.user_id c = 2
    /\ as_submitted submitted_values c.
Proof.
  apply (create_contact_then_get_contact new_values sample_db submitted_values bob).
  exact sample_db_wf.
Defined.

(** ** Delete-any *)

(** C9: [delete_all_contact] looks a contact up by identifier alone.  On a
    well-formed store, a row with that identifier, whoever owns it and
    whoever calls, is returned and no row with that identifier is left, the
    other rows staying as they were; when no row has that identifier the
    function returns [None] and leaves the store as it was. *)
Theorem delete_all_contact_by_id (db : DB) (contact_id : Z) (u : User.t) :
  wf db ->
  (forall c, In c (rows db) -> Contact.id c = contact_id ->
     delete_all_contact contact_id u db
     = (Ok (Some c),
        mkDB (filter (fun r => negb (Contact.id r =? contact_id)) (rows db))
             (next_id db))
     /\ forall r,
          In r (filter (fun r => negb (Contact.id r =? contact_id)) (rows db))
          <-> In r (rows db) /\ Contact.id r <> contact_id)
  /\ ((forall c, In c (rows db) -> Contact.id c <> contact_id) ->
      delete_all_contact contact_id u db = (Ok None, db)).
Proof.
  intros [ND _]. split.
  - intros c Hin Hid. split.
    + unfold delete_all_contact, bind, execute, lift.
      rewrite (id_lookup_present contact_id (rows db) c ND Hin Hid).
      simpl. unfold delete_commit, ret. simpl. rewrite Hid. reflexivity.
    + intro r. rewrite filter_In, negb_true_iff, Z.eqb_neq. tauto.
  - intro H. unfold delete_all_contact, bind, execute, lift.
    rewrite (id_lookup_absent contact_id (rows db) H). reflexivity.
Qed.

(** Alice deletes contact 3, which is bob's; nobody has contact 9. *)
Lemma delete_all_contact_by_id_witness :
  delete_all_contact 3 alice sample_db
  = (Ok (Some (sample 3 (d 1985 6 1) bob)),
     mkDB [sample 1 (d 1990 1 3) alice; sample 2 (d 2025 1 3) alice] 4)
  /\ delete_all_contact 9 alice sample_db = (Ok None, sample_db).
Proof.
  split.
  - apply (proj1 (delete_all_contact_by_id sample_db 3 alice sample_db_wf)
             (sample 3 (d 1985 6 1) bob)).
    + simpl. tauto.
    + reflexivity.
  - apply (proj2 (delete_all_contact_by_id sample_db 9 alice sample_db_wf)).
    simpl. intros c [<-|[<-|[<-|[]]]]; simpl; discriminate.
Defined.

(** ** Every operation leaves a well-formed store *)

Lemma create_contact_wf (column_default : ContactUpdateSchema.t) (db : DB)
    (body : ContactSchema.t) (u : User.t) :
  wf db -> wf (snd (create_contact column_default body u db)).
Proof.
  intro Hwf. unfold create_contact, bind, add_commit, refresh, ret.
  cbn [rows next_id].
  match goal with
  | |- context [find ?p ?l] => destruct (find p l)
  end; cbn [snd]; now apply wf_insert.
Qed.

Lemma update_contact_wf (db : DB) (contact_id : Z)
    (body : ContactUpdateSchema.t) (u : User.t) :
  wf db -> wf (snd (update_contact contact_id body u db)).
Proof.
  intro Hwf.
  destruct (pair_lookup_cases contact_id u (rows db) (proj1 Hwf))
    as [[E _]|[c [_ [Hin Hsel]]]].
  - unfold update_contact, bind, execute, lift. rewrite E. exact Hwf.
  - rewrite (update_contact_full_replace_aux db contact_id body u c Hwf Hin Hsel).
    apply wf_update; [exact Hwf|]. now destruct Hsel.
Qed.

Lemma delete_contact_wf (db : DB) (contact_id : Z) (u : User.t) :
  wf db -> wf (snd (delete_contact contact_id u db)).
Proof.
  intro Hwf.
  destruct (pair_lookup_cases contact_id u (rows db) (proj1 Hwf))
    as [[E _]|[c [E _]]];
    unfold delete_contact, bind, execute, lift; rewrite E.
  - exact Hwf.
  - now apply wf_delete.
Qed.

Lemma delete_all_contact_wf (db : DB) (contact_id : Z) (u : User.t) :
  wf db -> wf (snd (delete_all_contact contact_id u db)).
Proof.
  intro Hwf. unfold delete_all_contact, bind, execute, lift.
  destruct (Query.run (Query.filter_by_id contact_id Query.select_Contact)
              (rows db)) as [|c [|c' rest]]; cbn.
  - exact Hwf.
  - now apply wf_delete.
  - exact Hwf.
Qed.

(** ** Upcoming birthdays *)

(** The rows of the SELECT are owned by the caller and have their full date
    of birth, year included, inside the window, both ends belonging to it. *)
Lemma upcoming_select_rows (current_date future_date : Date.t)
    (limit offset : Z) (u : User.t) (table : list Contact.t) (c : Contact.t) :
  In c (Query.run (upcoming_select current_date future_date limit offset u) table) ->
  In c table
  /\ Contact.user_id c = User.id u
  /\ Date.leb current_date (Contact.birthday c) = true
  /\ Date.leb (Contact.birthday c) future_date = true.
Proof.
  unfold Query.run, upcoming_select. simpl. intro H.
  apply In_firstn, In_skipn, filter_In in H. destruct H as [Hin H].
  apply andb_true_iff in H. destruct H as [Hb Hu].
  unfold Date.between in Hb. apply andb_true_iff in Hb.
  apply Z.eqb_eq in Hu. tauto.
Qed.

(** The second reading of the result finds it closed: whatever the query
    selected, the list returned is empty. *)
Lemma upcoming_birthday_returns_no_contact (upcoming_days limit offset : Z)
    (u : User.t) (future_date : option Date.t) (today : Date.t) (db : DB) :
  get_contact_with_upcoming_birthday upcoming_days limit offset u future_date
    today db = (Ok [], db)
  \/ get_contact_with_upcoming_birthday upcoming_days limit offset u future_date
       today db = (Err OverflowError, db).
Proof.
  unfold get_contact_with_upcoming_birthday.
  destruct (Date.add_days today upcoming_days); [left|right]; reflexivity.
Qed.

(** C1: with today = 27 December 2024 and a window of 10 days, which ends on
    6 January 2025, the caller's only contact has its birthday on 3 January
    of a year [y].  The function returns the empty list for every [y]; for
    the birth year 1990 the SELECT itself has no row, the comparison being
    one of full dates. *)
Theorem upcoming_birthday_year_boundary (y : Z) :
  Date.add_days (d 2024 12 27) 10 = Some (d 2025 1 6)
  /\ get_contact_with_upcoming_birthday 10 10 0 alice None (d 2024 12 27)
       (mkDB [sample 1 (d y 1 3) alice] 2)
     = (Ok [], mkDB [sample 1 (d y 1 3) alice] 2)
  /\ Query.run (upcoming_select (d 2024 12 27) (d 2025 1 6) 10 0 alice)
       [sample 1 (d 1990 1 3) alice] = [].
Proof.
  split; [reflexivity|]. split; [|reflexivity].
  unfold get_contact_with_upcoming_birthday.
  replace (Date.add_days (d 2024 12 27) 10) with (Some (d 2025 1 6))
    by reflexivity.
  reflexivity.
Qed.

(** C2: with today = 1 March 2025 and a window of 365 days, which ends on
    1 March 2026, the caller has a contact born on 1 March 1990, one born on
    1 March 2026 and one born on 2 March 2026.  The SELECT keeps the second
    alone: the window has both its ends, on full dates.  The function returns
    the empty list. *)
Theorem upcoming_birthday_365_days :
  let table := [sample 1 (d 1990 3 1) alice; sample 2 (d 2026 3 1) alice;
                sample 3 (d 2026 3 2) alice] in
  Date.add_days (d 2025 3 1) 365 = Some (d 2026 3 1)
  /\ Date.add_days (d 2025 3 1) 366 = Some (d 2026 3 2)
  /\ Query.run (upcoming_select (d 2025 3 1) (d 2026 3 1) 10 0 alice) table
     = [sample 2 (d 2026 3 1) alice]
  /\ get_contact_with_upcoming_birthday 365 10 0 alice None (d 2025 3 1)
       (mkDB table 4)
     = (Ok [], mkDB table 4).
Proof.
  repeat split; reflexivity.
Qed.

(** C10: the argument [future_date] has no effect: two calls that differ only
    in it return the same list and leave the same store. *)
Theorem future_date_is_ignored (upcoming_days limit offset : Z) (u : User.t)
    (future_date1 future_date2 : option Date.t) (today : Date.t) (db : DB) :
  get_contact_with_upcoming_birthday upcoming_days limit offset u future_date1
    today db
  = get_contact_with_upcoming_birthday upcoming_days limit offset u future_date2
      today db.
Proof.
  unfold get_contact_with_upcoming_birthday.
  destruct (Date.add_days today upcoming_days); reflexivity.
Qed.

(** ** Pages *)

Lemma firstn_plus {A} (a b : nat) (l : list A) :
  firstn (a + b) l = firstn a l ++ firstn b (skipn a l).
Proof.
  revert l. induction a as [|a IH]; intro l; simpl; [reflexivity|].
  destruct l as [|x l]; simpl.
  - now rewrite firstn_nil.
  - now rewrite IH.
Qed.

Lemma skipn_plus {A} (a b : nat) (l : list A) :
  skipn (a + b) l = skipn b (skipn a l).
Proof.
  revert l. induction a as [|a IH]; intro l; simpl; [reflexivity|].
  destruct l as [|x l]; simpl; [now rewrite skipn_nil|apply IH].
Qed.

Lemma filter_length_le {A} (p : A -> bool) (l : list A) :
  (List.length (filter p l) <= List.length l)%nat.
Proof.
  induction l as [|a l IH]; simpl; [lia|]. destruct (p a); simpl; lia.
Qed.

Lemma filter_true {A} (l : list A) : filter (fun _ => true) l = l.
Proof.
  induction l as [|a l IH]; simpl; [reflexivity|]. now rewrite IH.
Qed.

(** Two pages that follow each other make up the page of both sizes. *)
Lemma run_page_plus (q : Query.Select) (offset limit1 limit2 : Z)
    (table : list Contact.t) :
  0 <= offset -> 0 <= limit1 -> 0 <= limit2 ->
  Query.run (Query.limit (limit1 + limit2) (Query.offset offset q)) table
  = Query.run (Query.limit limit1 (Query.offset offset q)) table
    ++ Query.run (Query.limit limit2 (Query.offset (offset + limit1) q)) table.
Proof.
  intros Ho H1 H2. unfold Query.run. simpl.
  rewrite !Z2Nat.inj_add by lia.
  rewrite firstn_plus, skipn_plus. reflexivity.
Qed.

(** A page from the start that is as long as the table is the whole
    selection. *)
Lemma run_whole (q : Query.Select) (limit : Z) (table : list Contact.t) :
  Z.of_nat (List.length table) <= limit ->
  Query.run (Query.limit limit (Query.offset 0 q)) table
  = filter (Query.whereclause q) table.
Proof.
  intro H. unfold Query.run. simpl.
  apply firstn_all2.
  pose proof (filter_length_le (Query.whereclause q) table). lia.
Qed.

(** ** Reading one contact *)

(** X1: a contact that [get_contact] returns is a row of the table, has the
    identifier asked for and is owned by the caller; the store is left as it
    was. *)
Theorem get_contact_sound (db db' : DB) (contact_id : Z) (u : User.t)
    (c : Contact.t) :
  get_contact contact_id u db = (Ok (Some c), db') ->
  db' = db /\ In c (rows db) /\ Contact.id c = contact_id
  /\ Contact.user_id c = User.id u.
Proof.
  unfold get_contact, bind, execute, lift. rewrite run_by_pair.
  destruct (filter (fun r => (Contact.id r =? contact_id)
                             && (Contact.user_id r =? User.id u)) (rows db))
    as [|x [|y rest]] eqn:E; simpl; intro H; try discriminate.
  injection H as Hc Hdb. subst x db'.
  assert (Hin : In c [c]) by now left.
  rewrite <- E in Hin. apply filter_In in Hin. destruct Hin as [Hin Hp].
  apply selected_iff in Hp. destruct Hp. auto.
Qed.

Lemma get_contact_sound_witness :
  sample_db = sample_db /\ In (sample 2 (d 2025 1 3) alice) (rows sample_db)
  /\ Contact.id (sample 2 (d 2025 1 3) alice) = 2
  /\ Contact.user_id (sample 2 (d 2025 1 3) alice) = User.id alice.
Proof.
  apply (get_contact_sound sample_db sample_db 2 alice). reflexivity.
Defined.

(** X2: on a well-formed store, [get_contact] with the identifier of a row
    and its owner as caller returns that row. *)
Theorem get_contact_present (db : DB) (contact_id : Z) (u : User.t)
    (c : Contact.t) :
  wf db -> In c (rows db) -> Contact.id c = contact_id ->
  Contact.user_id c = User.id u ->
  get_contact contact_id u db = (Ok (Some c), db).
Proof.
  intros [ND _] Hin Hid Hu. unfold get_contact, bind, execute, lift.
  rewrite (pair_lookup_present contact_id u (rows db) c ND Hin (conj Hid Hu)).
  reflexivity.
Qed.

Lemma get_contact_present_witness :
  get_contact 3 bob sample_db = (Ok (Some (sample 3 (d 1985 6 1) bob)), sample_db).
Proof.
  apply (get_contact_present sample_db 3 bob (sample 3 (d 1985 6 1) bob)).
  - exact sample_db_wf.
  - simpl. tauto.
  - reflexivity.
  - reflexivity.
Defined.

(** ** Listings *)

(** X3: for non-negative [limit] and [offset], [get_contacts] returns at
    most [limit] contacts, and each of them is a row of the table. *)
Theorem get_contacts_page_size (db : DB) (limit offset : Z) (u : User.t) :
  0 <= limit -> 0 <= offset ->
  exists l,
    get_contacts limit offset u db = (Ok l, db)
    /\ Z.of_nat (List.length l) <= limit
    /\ forall c, In c l -> In c (rows db).
Proof.
  intros Hl _. unfold get_contacts, bind, execute, ret, scalars_all.
  cbn [fst]. eexists. split; [reflexivity|]. split.
  - unfold Query.run. simpl.
    match goal with
    | |- context [firstn ?n ?l] => pose proof (firstn_le_length n l)
    end.
    lia.
  - intros c Hc. unfold Query.run in Hc. simpl in Hc.
    apply In_firstn, In_skipn, filter_In in Hc. tauto.
Qed.

Lemma get_contacts_page_size_witness :
  exists l,
    get_contacts 1 0 alice sample_db = (Ok l, sample_db)
    /\ Z.of_nat (List.length l) <= 1
    /\ forall c, In c l -> In c (rows sample_db).
Proof.
  apply (get_contacts_page_size sample_db 1 0 alice); lia.
Defined.

(** X4: pages of [get_contacts] tile the listing: the page of [limit1]
    contacts at [offset], followed by the page of [limit2] contacts at
    [offset + limit1], is the page of [limit1 + limit2] contacts at
    [offset]. *)
Theorem get_contacts_pages_tile (db : DB) (offset limit1 limit2 : Z)
    (u : User.t) :
  0 <= offset -> 0 <= limit1 -> 0 <= limit2 ->
  exists p1 p2,
    get_contacts limit1 offset u db = (Ok p1, db)
    /\ get_contacts limit2 (offset + limit1) u db = (Ok p2, db)
    /\ get_contacts (limit1 + limit2) offset u db = (Ok (p1 ++ p2), db).
Proof.
  intros Ho H1 H2. unfold get_contacts, bind, execute, ret, scalars_all.
  cbn [fst]. do 2 eexists. split; [reflexivity|]. split; [reflexivity|].
  now rewrite run_page_plus.
Qed.

Lemma get_contacts_pages_tile_witness :
  exists p1 p2,
    get_contacts 1 0 alice sample_db = (Ok p1, sample_db)
    /\ get_contacts 1 (0 + 1) alice sample_db = (Ok p2, sample_db)
    /\ get_contacts (1 + 1) 0 alice sample_db = (Ok (p1 ++ p2), sample_db).
Proof.
  apply (get_contacts_pages_tile sample_db 0 1 1 alice); lia.
Defined.

(** X5: with [offset = 0] and a [limit] of at least the size of the table,
    [get_contacts] returns the caller's contacts, all of them and in table
    order. *)
Theorem get_contacts_whole (db : DB) (limit : Z) (u : User.t) :
  Z.of_nat (List.length (rows db)) <= limit ->
  get_contacts limit 0 u db = (Ok (owned_by u (rows db)), db)
  /\ forall c, In c (owned_by u (rows db))
               <-> In c (rows db) /\ Contact.user_id c = User.id u.
Proof.
  intro H. split.
  - unfold get_contacts, bind, execute, ret, scalars_all. cbn [fst].
    rewrite (run_whole _ limit (rows db) H). reflexivity.
  - intro c. unfold owned_by. rewrite filter_In, Z.eqb_eq. tauto.
Qed.

Lemma get_contacts_whole_witness :
  get_contacts 10 0 alice sample_db
  = (Ok [sample 1 (d 1990 1 3) alice; sample 2 (d 2025 1 3) alice], sample_db)
  /\ forall c, In c (owned_by alice (rows sample_db))
               <-> In c (rows sample_db) /\ Contact.user_id c = User.id alice.
Proof.
  apply (get_contacts_whole sample_db 10 alice). simpl. lia.
Defined.

(** X6: [get_all_contacts] is not scoped by owner: with [offset = 0] and a
    [limit] of at least the size of the table it returns the whole table, in
    insertion order, whoever the caller is; and its pages tile like those of
    [get_contacts]. *)
Theorem get_all_contacts_unscoped (db : DB) (offset limit limit1 limit2 : Z)
    (u : User.t) :
  Z.of_nat (List.length (rows db)) <= limit ->
  0 <= offset -> 0 <= limit1 -> 0 <= limit2 ->
  get_all_contacts limit 0 u db = (Ok (rows db), db)
  /\ exists p1 p2,
       get_all_contacts limit1 offset u db = (Ok p1, db)
       /\ get_all_contacts limit2 (offset + limit1) u db = (Ok p2, db)
       /\ get_all_contacts (limit1 + limit2) offset u db = (Ok (p1 ++ p2), db).
Proof.
  intros H Ho H1 H2. split.
  - unfold get_all_contacts, bind, execute, ret, scalars_all. cbn [fst].
    rewrite (run_whole _ limit (rows db) H). simpl.
    now rewrite filter_true.
  - unfold get_all_contacts, bind, execute, ret, scalars_all. cbn [fst].
    do 2 eexists. split; [reflexivity|]. split; [reflexivity|].
    now rewrite run_page_plus.
Qed.

Lemma get_all_contacts_unscoped_witness :
  get_all_contacts 10 0 bob sample_db = (Ok (rows sample_db), sample_db)
  /\ exists p1 p2,
       get_all_contacts 2 1 bob sample_db = (Ok p1, sample_db)
       /\ get_all_contacts 1 (1 + 2) bob sample_db = (Ok p2, sample_db)
       /\ get_all_contacts (2 + 1) 1 bob sample_db = (Ok (p1 ++ p2), sample_db).
Proof.
  apply (get_all_contacts_unscoped sample_db 1 10 2 1 bob); simpl; lia.
Defined.

(** ** Rows, keys and owners *)

(** Under the key constraint two rows with one identifier are one row. *)
Lemma same_key_same_row {A} (key : A -> Z) (l : list A) (x y : A) :
  NoDup (map key l) -> In x l -> In y l -> key x = key y -> x = y.
Proof.
  induction l as [|a l IH]; simpl; intros ND Hx Hy E; [contradiction|].
  apply NoDup_cons_iff in ND. destruct ND as [Hna ND].
  destruct Hx as [->|Hx], Hy as [->|Hy]; auto.
  - exfalso. apply Hna. rewrite E. now apply in_map.
  - exfalso. apply Hna. rewrite <- E. now apply in_map.
Qed.

Lemma id_lookup_cases (contact_id : Z) (l : list Contact.t) :
  NoDup (map Contact.id l) ->
  let found := Query.run (Query.filter_by_id contact_id Query.select_Contact) l in
  (found = [] /\ forall c, In c l -> Contact.id c <> contact_id)
  \/ (exists c, found = [c] /\ In c l /\ Contact.id c = contact_id).
Proof.
  intros ND found. subst found.
  destruct (filter (fun c => Contact.id c =? contact_id) l) as [|c rest] eqn:E.
  - left. split; [now rewrite run_by_id|].
    intros c Hc Hid.
    assert (Hin : In c []).
    { rewrite <- E. apply filter_In. split; [exact Hc|now apply Z.eqb_eq]. }
    exact Hin.
  - right. exists c.
    assert (Hc : In c (c :: rest)) by now left.
    rewrite <- E in Hc. apply filter_In in Hc. destruct Hc as [Hin Hp].
    apply Z.eqb_eq in Hp.
    split; [|split]; auto.
    now apply id_lookup_present.
Qed.

Lemma get_contacts_value (limit offset : Z) (u : User.t) (db : DB) :
  get_contacts limit offset u db
  = (Ok (firstn (Z.to_nat limit)
           (skipn (Z.to_nat offset) (owned_by u (rows db)))), db).
Proof.
  unfold get_contacts, bind, execute, ret, scalars_all, Query.run, owned_by.
  simpl. reflexivity.
Qed.

Lemma owned_by_inserted (v : User.t) (l : list Contact.t) (c : Contact.t) :
  Contact.user_id c <> User.id v -> owned_by v (l ++ [c]) = owned_by v l.
Proof.
  intro H. unfold owned_by. rewrite filter_app. simpl.
  apply Z.eqb_neq in H. rewrite H. apply app_nil_r.
Qed.

Lemma owned_by_deleted (v : User.t) (k : Z) (l : list Contact.t) :
  (forall r, In r l -> Contact.id r = k -> Contact.user_id r <> User.id v) ->
  owned_by v (filter (fun r => negb (Contact.id r =? k)) l) = owned_by v l.
Proof.
  unfold owned_by. induction l as [|a l IH]; simpl; intro H; [reflexivity|].
  destruct (Contact.id a =? k) eqn:E; simpl.
  - apply Z.eqb_eq in E.
    pose proof (H a (or_introl eq_refl) E) as Hv. apply Z.eqb_neq in Hv.
    rewrite Hv. apply IH. intros r Hr. apply H. now right.
  - rewrite IH; [reflexivity|]. intros r Hr. apply H. now right.
Qed.

Lemma owned_by_replaced (v : User.t) (k : Z) (c' : Contact.t)
    (l : list Contact.t) :
  Contact.user_id c' <> User.id v ->
  (forall r, In r l -> Contact.id r = k -> Contact.user_id r <> User.id v) ->
  owned_by v (map (fun r => if Contact.id r =? k then c' else r) l)
  = owned_by v l.
Proof.
  unfold owned_by. intro Hc'. apply Z.eqb_neq in Hc'.
  induction l as [|a l IH]; simpl; intro H; [reflexivity|].
  destruct (Contact.id a =? k) eqn:E.
  - apply Z.eqb_eq in E.
    pose proof (H a (or_introl eq_refl) E) as Hv. apply Z.eqb_neq in Hv.
    rewrite Hc', Hv. apply IH. intros r Hr. apply H. now right.
  - rewrite IH; [reflexivity|]. intros r Hr. apply H. now right.
Qed.

(** What a delete of a selected row returns and leaves. *)
Lemma delete_contact_present_aux (db : DB) (contact_id : Z) (u : User.t)
    (c : Contact.t) :
  wf db -> In c (rows db) -> selected contact_id u c ->
  delete_contact contact_id u db
  = (Ok (Some c),
     mkDB (filter (fun r => negb (Contact.id r =? contact_id)) (rows db))
          (next_id db)).
Proof.
  intros [ND _] Hin Hsel. unfold delete_contact, bind, execute, lift.
  rewrite (pair_lookup_present _ _ _ c ND Hin Hsel). simpl.
  unfold delete_commit, ret. simpl. destruct Hsel as [-> _]. reflexivity.
Qed.

Lemma filter_out_key_length (k : Z) (l : list Contact.t) (c : Contact.t) :
  NoDup (map Contact.id l) -> In c l -> Contact.id c = k ->
  S (List.length (filter (fun r => negb (Contact.id r =? k)) l)) = List.length l.
Proof.
  induction l as [|a l IH]; simpl; intros ND Hin Hk; [contradiction|].
  apply NoDup_cons_iff in ND. destruct ND as [Hna ND].
  destruct Hin as [->|Hin].
  - rewrite Hk, Z.eqb_refl. simpl. f_equal.
    assert (E : filter (fun r => negb (Contact.id r =? k)) l = l).
    { clear IH. induction l as [|b l IH]; simpl; [reflexivity|].
      destruct (Contact.id b =? k) eqn:Eb.
      - exfalso. apply Hna. apply Z.eqb_eq in Eb. rewrite Hk, <- Eb.
        simpl. now left.
      - simpl. f_equal. apply IH.
        + intro H. apply Hna. simpl. now right.
        + simpl in ND. now apply NoDup_cons_iff in ND. }
    now rewrite E.
  - destruct (Contact.id a =? k) eqn:Ea.
    + exfalso. apply Hna. apply Z.eqb_eq in Ea. rewrite Ea, <- Hk.
      now apply in_map.
    + simpl. f_equal. now apply IH.
Qed.

(** ** Delete-own, further *)

(** X7: when no row has the given identifier and owner, as when the contact
    belongs to another user, [delete_contact] returns [None] and leaves the
    store as it was. *)
Theorem delete_contact_absent (db : DB) (contact_id : Z) (u : User.t) :
  (forall c, In c (rows db) -> ~ selected contact_id u c) ->
  delete_contact contact_id u db = (Ok None, db).
Proof.
  intro H. unfold delete_contact, bind, execute, lift.
  rewrite (pair_lookup_absent _ _ _ H). reflexivity.
Qed.

(** Alice tries to delete contact 3, which is bob's. *)
Lemma delete_contact_absent_witness :
  delete_contact 3 alice sample_db = (Ok None, sample_db).
Proof.
  apply (delete_contact_absent sample_db 3 alice).
  unfold selected. simpl.
  intros c [<-|[<-|[<-|[]]]]; simpl; intros [H1 H2]; discriminate.
Defined.

(** X8: on a well-formed store, [delete_contact] on a row of the caller
    returns that row and removes it and nothing else: the rows left are the
    rows with another identifier, in their order, one fewer than before, and
    the sequence is untouched. *)
Theorem delete_contact_present (db : DB) (contact_id : Z) (u : User.t)
    (c : Contact.t) :
  wf db -> In c (rows db) -> selected contact_id u c ->
  exists db',
    delete_contact contact_id u db = (Ok (Some c), db')
    /\ next_id db' = next_id db
    /\ S (List.length (rows db')) = List.length (rows db)
    /\ forall r, In r (rows db') <-> In r (rows db) /\ r <> c.
Proof.
  intros Hwf Hin Hsel. eexists. split; [|split; [|split]].
  - now apply delete_contact_present_aux.
  - reflexivity.
  - cbn [rows]. destruct Hwf as [ND _], Hsel as [Hid _].
    now apply (filter_out_key_length contact_id (rows db) c).
  - intro r. cbn [rows]. rewrite filter_In, negb_true_iff, Z.eqb_neq.
    destruct Hwf as [ND _], Hsel as [Hid _]. split.
    + intros [Hr Hne]. split; [exact Hr|]. intros ->. contradiction.
    + intros [Hr Hne]. split; [exact Hr|]. intro E. apply Hne.
      apply (same_key_same_row Contact.id (rows db)); auto. congruence.
Qed.

Lemma delete_contact_present_witness :
  exists db',
    delete_contact 1 alice sample_db = (Ok (Some (sample 1 (d 1990 1 3) alice)), db')
    /\ next_id db' = next_id sample_db
    /\ S (List.length (rows db')) = List.length (rows sample_db)
    /\ forall r, In r (rows db')
                 <-> In r (rows sample_db) /\ r <> sample 1 (d 1990 1 3) alice.
Proof.
  apply (delete_contact_present sample_db 1 alice (sample 1 (d 1990 1 3) alice)).
  - exact sample_db_wf.
  - simpl. tauto.
  - split; reflexivity.
Defined.

(** ** What a user's writes do to another user's listing *)

(** X9: a contact created by [u] does not change any page of the listing
    of a user with another identifier. *)
Theorem create_contact_frame (column_default : ContactUpdateSchema.t)
    (db : DB) (body : ContactSchema.t) (u v : User.t) (limit offset : Z) :
  User.id v <> User.id u ->
  fst (get_contacts limit offset v
         (snd (create_contact column_default body u db)))
  = fst (get_contacts limit offset v db).
Proof.
  intro Hv. rewrite !get_contacts_value. cbn [fst].
  replace (rows (snd (create_contact column_default body u db)))
    with (rows db
          ++ [Contact_init column_default (model_dump_exclude_unset body) u
                (next_id db)]).
  - rewrite owned_by_inserted; [reflexivity|]. simpl. congruence.
  - unfold create_contact, bind, add_commit, refresh, ret. cbn [rows next_id].
    match goal with
    | |- context [find ?p ?l] => destruct (find p l)
    end; reflexivity.
Qed.

Lemma create_contact_frame_witness :
  fst (get_contacts 10 0 alice
         (snd (create_contact new_values submitted_values bob sample_db)))
  = fst (get_contacts 10 0 alice sample_db).
Proof.
  apply (create_contact_frame new_values sample_db submitted_values bob alice 10 0).
  simpl. lia.
Defined.

(** X10: on a well-formed store, an update by [u] does not change any page
    of the listing of a user with another identifier, whatever identifier
    [u] names. *)
Theorem update_contact_frame (db : DB) (contact_id : Z)
    (body : ContactUpdateSchema.t) (u v : User.t) (limit offset : Z) :
  wf db -> User.id v <> User.id u ->
  fst (get_contacts limit offset v (snd (update_contact contact_id body u db)))
  = fst (get_contacts limit offset v db).
Proof.
  intros Hwf Hv. rewrite !get_contacts_value. cbn [fst].
  destruct (pair_lookup_cases contact_id u (rows db) (proj1 Hwf))
    as [[E _]|[c [_ [Hin Hsel]]]].
  - unfold update_contact, bind, execute, lift. rewrite E. reflexivity.
  - rewrite (update_contact_full_replace_aux db contact_id body u c Hwf Hin Hsel).
    cbn [snd rows]. destruct Hsel as [Hid Hu].
    rewrite owned_by_replaced; [reflexivity| |].
    + simpl. congruence.
    + intros r Hr Hk.
      assert (r = c) as ->
        by (apply (same_key_same_row Contact.id (rows db));
            [exact (proj1 Hwf)|auto|auto|congruence]).
      congruence.
Qed.

Lemma update_contact_frame_witness :
  fst (get_contacts 10 0 bob (snd (update_contact 1 new_values alice sample_db)))
  = fst (get_contacts 10 0 bob sample_db).
Proof.
  apply (update_contact_frame sample_db 1 new_values alice bob 10 0).
  - exact sample_db_wf.
  - simpl. lia.
Defined.

(** X11: on a well-formed store, a [delete_contact] by [u] does not change
    any page of the listing of a user with another identifier, whatever
    identifier [u] names. *)
Theorem delete_contact_frame (db : DB) (contact_id : Z) (u v : User.t)
    (limit offset : Z) :
  wf db -> User.id v <> User.id u ->
  fst (get_contacts limit offset v (snd (delete_contact contact_id u db)))
  = fst (get_contacts limit offset v db).
Proof.
  intros Hwf Hv. rewrite !get_contacts_value. cbn [fst].
  destruct (pair_lookup_cases contact_id u (rows db) (proj1 Hwf))
    as [[E _]|[c [_ [Hin Hsel]]]].
  - unfold delete_contact, bind, execute, lift. rewrite E. reflexivity.
  - rewrite (delete_contact_present_aux db contact_id u c Hwf Hin Hsel).
    cbn [snd rows]. destruct Hsel as [Hid Hu].
    rewrite owned_by_deleted; [reflexivity|].
    intros r Hr Hk.
    assert (r = c) as ->
      by (apply (same_key_same_row Contact.id (rows db));
          [exact (proj1 Hwf)|auto|auto|congruence]).
    congruence.
Qed.

Lemma delete_contact_frame_witness :
  fst (get_contacts 10 0 bob (snd (delete_contact 3 alice sample_db)))
  = fst (get_contacts 10 0 bob sample_db).
Proof.
  apply (delete_contact_frame sample_db 3 alice bob 10 0).
  - exact sample_db_wf.
  - simpl. lia.
Defined.

(** ** Update, further *)

Lemma replaced_twice (body : ContactUpdateSchema.t) (c : Contact.t) :
  replaced body (replaced body c) = replaced body c.
Proof. reflexivity. Qed.

Lemma map_replaced_twice (k : Z) (c' : Contact.t) (l : list Contact.t) :
  Contact.id c' = k ->
  map (fun r => if Contact.id r =? k then c' else r)
      (map (fun r => if Contact.id r =? k then c' else r) l)
  = map (fun r => if Contact.id r =? k then c' else r) l.
Proof.
  intro Hk. rewrite map_map. apply map_ext. intro r.
  destruct (Contact.id r =? k) eqn:E.
  - rewrite Hk, Z.eqb_refl. reflexivity.
  - rewrite E. reflexivity.
Qed.

Lemma In_replaced (k : Z) (c' : Contact.t) (l : list Contact.t) :
  (exists r, In r l /\ Contact.id r = k) ->
  In c' (map (fun r => if Contact.id r =? k then c' else r) l).
Proof.
  intros [r [Hin Hk]]. apply in_map_iff. exists r. split; [|exact Hin].
  apply Z.eqb_eq in Hk. now rewrite Hk.
Qed.

(** X12: on a well-formed store, after [update_contact] has updated a row
    of the caller, [get_contact] with the same identifier and caller returns
    the record that the update returned. *)
Theorem update_contact_then_get_contact (db : DB) (contact_id : Z)
    (body : ContactUpdateSchema.t) (u : User.t) (c : Contact.t) :
  wf db -> In c (rows db) -> selected contact_id u c ->
  exists c' db',
    update_contact contact_id body u db = (Ok (Some c'), db')
    /\ get_contact contact_id u db' = (Ok (Some c'), db').
Proof.
  intros Hwf Hin Hsel.
  exists (replaced body c),
    (mkDB (map (fun r => if Contact.id r =? contact_id
                         then replaced body c else r) (rows db))
          (next_id db)).
  split.
  - now apply update_contact_full_replace_aux.
  - destruct Hsel as [Hid Hu].
    pose proof (wf_update db contact_id (replaced body c) Hwf Hid) as [ND' _].
    unfold get_contact, bind, execute, lift.
    rewrite (pair_lookup_present contact_id u _ (replaced body c) ND').
    + reflexivity.
    + cbn [rows]. apply In_replaced. exists c. auto.
    + split; [exact Hid|exact Hu].
Qed.

Lemma update_contact_then_get_contact_witness :
  exists c' db',
    update_contact 2 new_values alice sample_db = (Ok (Some c'), db')
    /\ get_contact 2 alice db' = (Ok (Some c'), db').
Proof.
  apply (update_contact_then_get_contact sample_db 2 new_values alice
           (sample 2 (d 2025 1 3) alice)).
  - exact sample_db_wf.
  - simpl. tauto.
  - split; reflexivity.
Defined.

(** X13: on a well-formed store an update is idempotent: the same update
    run again returns the same record, or [None] again, and leaves the same
    store. *)
Theorem update_contact_idempotent (db : DB) (contact_id : Z)
    (body : ContactUpdateSchema.t) (u : User.t) :
  wf db ->
  update_contact contact_id body u (snd (update_contact contact_id body u db))
  = update_contact contact_id body u db.
Proof.
  intro Hwf.
  destruct (pair_lookup_cases contact_id u (rows db) (proj1 Hwf))
    as [[E _]|[c [_ [Hin Hsel]]]].
  - assert (H1 : update_contact contact_id body u db = (Ok None, db)).
    { unfold update_contact, bind, execute, lift. rewrite E. reflexivity. }
    rewrite H1. cbn [snd]. exact H1.
  - rewrite (update_contact_full_replace_aux db contact_id body u c Hwf Hin Hsel).
    cbn [snd]. destruct Hsel as [Hid Hu].
    rewrite (update_contact_full_replace_aux _ contact_id body u (replaced body c)).
    + cbn [rows next_id]. rewrite replaced_twice.
      rewrite map_replaced_twice by exact Hid. reflexivity.
    + now apply wf_update.
    + cbn [rows]. apply In_replaced. exists c. auto.
    + split; [exact Hid|exact Hu].
Qed.

Lemma update_contact_idempotent_witness :
  update_contact 1 new_values alice
    (snd (update_contact 1 new_values alice sample_db))
  = update_contact 1 new_values alice sample_db.
Proof.
  apply (update_contact_idempotent sample_db 1 new_values alice).
  exact sample_db_wf.
Defined.

(** X14: on a well-formed store [update_contact] never changes who owns
    what: the store it leaves has the same identifiers with the same owners,
    row by row, and the same sequence. *)
Theorem update_contact_keeps_keys_and_owners (db : DB) (contact_id : Z)
    (body : ContactUpdateSchema.t) (u : User.t) :
  wf db ->
  let db' := snd (update_contact contact_id body u db) in
  map (fun r => (Contact.id r, Contact.user_id r)) (rows db')
  = map (fun r => (Contact.id r, Contact.user_id r)) (rows db)
  /\ next_id db' = next_id db.
Proof.
  intros Hwf db'. subst db'.
  destruct (pair_lookup_cases contact_id u (rows db) (proj1 Hwf))
    as [[E _]|[c [_ [Hin Hsel]]]].
  - assert (H1 : update_contact contact_id body u db = (Ok None, db)).
    { unfold update_contact, bind, execute, lift. rewrite E. reflexivity. }
    rewrite H1. split; reflexivity.
  - rewrite (update_contact_full_replace_aux db contact_id body u c Hwf Hin Hsel).
    cbn [snd rows next_id]. split; [|reflexivity].
    rewrite map_map. apply map_ext_in. intros r Hr.
    destruct (Contact.id r =? contact_id) eqn:E; [|reflexivity].
    apply Z.eqb_eq in E. destruct Hsel as [Hid Hu].
    assert (r = c) as ->
      by (apply (same_key_same_row Contact.id (rows db));
          [exact (proj1 Hwf)|auto|auto|congruence]).
    reflexivity.
Qed.

Lemma update_contact_keeps_keys_and_owners_witness :
  let db' := snd (update_contact 3 new_values bob sample_db) in
  map (fun r => (Contact.id r, Contact.user_id r)) (rows db')
  = map (fun r => (Contact.id r, Contact.user_id r)) (rows sample_db)
  /\ next_id db' = next_id sample_db.
Proof.
  apply (update_contact_keeps_keys_and_owners sample_db 3 new_values bob).
  exact sample_db_wf.
Defined.

(** ** Create, further *)

(** X15: on a well-formed store, a contact created by [u] comes last in the
    listing of [u]: with [offset = 0] and a [limit] above the size of the
    table, [get_contacts] after the create returns what [u] had before,
    followed by the new record. *)
Theorem create_contact_then_get_contacts (column_default : ContactUpdateSchema.t)
    (db : DB) (body : ContactSchema.t) (u : User.t) (limit : Z) :
  wf db -> Z.of_nat (List.length (rows db)) < limit ->
  exists c db',
    create_contact column_default body u db = (Ok c, db')
    /\ get_contacts limit 0 u db' = (Ok (owned_by u (rows db) ++ [c]), db').
Proof.
  intros [_ HF] Hl.
  set (c := Contact_init column_default (model_dump_exclude_unset body) u
              (next_id db)).
  exists c, (mkDB (rows db ++ [c]) (next_id db + 1)). split.
  - unfold create_contact, bind, add_commit, refresh, ret. cbn [rows next_id].
    fold c. rewrite (find_inserted (next_id db) c (rows db) eq_refl HF).
    reflexivity.
  - rewrite get_contacts_value. cbn [rows]. f_equal. f_equal.
    unfold owned_by. rewrite filter_app. simpl. rewrite Z.eqb_refl.
    simpl. apply firstn_all2.
    rewrite length_app. simpl.
    pose proof (filter_length_le
                  (fun x => Contact.user_id x =? User.id u) (rows db)).
    lia.
Qed.

Lemma create_contact_then_get_contacts_witness :
  exists c db',
    create_contact new_values submitted_values alice sample_db = (Ok c, db')
    /\ get_contacts 10 0 alice db'
       = (Ok (owned_by alice (rows sample_db) ++ [c]), db').
Proof.
  apply (create_contact_then_get_contacts new_values sample_db submitted_values
           alice 10).
  - exact sample_db_wf.
  - simpl. lia.
Defined.

(** ** Stores that the operations can reach *)

Lemma serve_wf (db : DB) (r : request) : wf db -> wf (serve db r).
Proof.
  intro Hwf. destruct r; simpl.
  - now apply create_contact_wf.
  - now apply update_contact_wf.
  - now apply delete_contact_wf.
  - now apply delete_all_contact_wf.
Qed.

Lemma history_wf (history : list request) (db : DB) :
  wf db -> wf (fold_left serve history db).
Proof.
  revert db. induction history as [|r history IH]; simpl; intros db Hwf.
  - exact Hwf.
  - apply IH. now apply serve_wf.
Qed.

(** X16: whatever creates, updates and deletes are served, in whatever
    order, starting from the empty table, no two rows of the table share an
    identifier, and every identifier in use lies below the next value of the
    sequence. *)
Theorem reachable_store_wf (history : list request) :
  let db := fold_left serve history empty_db in
  NoDup (map Contact.id (rows db))
  /\ Forall (fun c => Contact.id c < next_id db) (rows db).
Proof.
  intro db. exact (history_wf history empty_db wf_empty).
Qed.

(** X17: on a store reached from the empty table by any history of writes,
    the lookups by identifier never meet two rows: [get_contact],
    [update_contact], [delete_contact] and [delete_all_contact] return
    without raising, and so does [create_contact]. *)
Theorem reachable_store_no_exception (history : list request)
    (column_default : ContactUpdateSchema.t) (contact_id : Z)
    (body : ContactSchema.t) (values : ContactUpdateSchema.t) (u : User.t) :
  let db := fold_left serve history empty_db in
  (exists r, get_contact contact_id u db = (Ok r, db))
  /\ (exists r db', update_contact contact_id values u db = (Ok r, db'))
  /\ (exists r db', delete_contact contact_id u db = (Ok r, db'))
  /\ (exists r db', delete_all_contact contact_id u db = (Ok r, db'))
  /\ (exists c db', create_contact column_default body u db = (Ok c, db')).
Proof.
  intro db. pose proof (history_wf history empty_db wf_empty) as Hwf.
  fold db in Hwf. destruct Hwf as [ND HF].
  split; [|split; [|split; [|split]]].
  - unfold get_contact, bind, execute, lift.
    destruct (pair_lookup_cases contact_id u (rows db) ND)
      as [[E _]|[c [E _]]]; rewrite E; eexists; reflexivity.
  - destruct (pair_lookup_cases contact_id u (rows db) ND)
      as [[E _]|[c [_ [Hin Hsel]]]].
    + unfold update_contact, bind, execute, lift. rewrite E.
      do 2 eexists. reflexivity.
    + do 2 eexists.
      apply (update_contact_full_replace_aux db contact_id values u c);
        [split|..]; assumption.
  - unfold delete_contact, bind, execute, lift.
    destruct (pair_lookup_cases contact_id u (rows db) ND)
      as [[E _]|[c [E _]]]; rewrite E; do 2 eexists; reflexivity.
  - unfold delete_all_contact, bind, execute, lift.
    destruct (id_lookup_cases contact_id (rows db) ND)
      as [[E _]|[c [E _]]]; rewrite E; do 2 eexists; reflexivity.
  - unfold create_contact, bind, add_commit, refresh, ret. cbn [rows next_id].
    rewrite (find_inserted (next_id db)
               (Contact_init column_default (model_dump_exclude_unset body) u
                  (next_id db))
               (rows db) eq_refl HF).
    do 2 eexists. reflexivity.
Qed.

(** ** Upcoming birthdays, further *)

Lemma DAYS_BEFORE_MONTH_bounds (m : Z) :
  1 <= m <= 12 -> 0 <= Date.DAYS_BEFORE_MONTH m <= 334.
Proof.
  intro H.
  assert (Hm : m = 1 \/ m = 2 \/ m = 3 \/ m = 4 \/ m = 5 \/ m = 6 \/ m = 7
               \/ m = 8 \/ m = 9 \/ m = 10 \/ m = 11 \/ m = 12) by lia.
  repeat (destruct Hm as [->|Hm]); try subst m;
    unfold Date.DAYS_BEFORE_MONTH; simpl; lia.
Qed.

Lemma days_before_year_bounds (y : Z) :
  1 <= y <= 9997 -> 0 <= Date.days_before_year y <= 3651039.
Proof.
  intro H. unfold Date.days_before_year. cbv zeta.
  Z.div_mod_to_equations. lia.
Qed.

Lemma add_days_in_range (today : Date.t) (n : Z) :
  plausible_today today -> 0 <= n <= 365 ->
  exists future_date, Date.add_days today n = Some future_date.
Proof.
  intros [Hy [Hm Hd]] Hn. unfold Date.add_days. cbv zeta.
  assert (Hb : 1 <= Date.toordinal today <= Date.MAXORDINAL - 365).
  { unfold Date.toordinal, Date.days_before_month, Date.MAXORDINAL.
    pose proof (days_before_year_bounds _ Hy).
    pose proof (DAYS_BEFORE_MONTH_bounds _ Hm).
    destruct ((2 <? Date.month today) && Date.is_leap (Date.year today)); lia. }
  unfold Date.MAXORDINAL in *.
  replace ((0 <? Date.toordinal today + n)
           && (Date.toordinal today + n <=? 3652059)) with true.
  - eexists. reflexivity.
  - symmetry. apply andb_true_iff. rewrite Z.ltb_lt, Z.leb_le. lia.
Qed.

(** X18: for a clock reading in the years 1 to 9997 and a window of 0 to
    365 days, [get_contact_with_upcoming_birthday] returns the empty list,
    whatever the table holds and whoever calls, and leaves the store as it
    was. *)
Theorem upcoming_birthday_always_empty (upcoming_days limit offset : Z)
    (u : User.t) (future_date : option Date.t) (today : Date.t) (db : DB) :
  plausible_today today -> 0 <= upcoming_days <= 365 ->
  get_contact_with_upcoming_birthday upcoming_days limit offset u future_date
    today db
  = (Ok [], db).
Proof.
  intros Ht Hn. unfold get_contact_with_upcoming_birthday.
  destruct (add_days_in_range today upcoming_days Ht Hn) as [fd ->].
  reflexivity.
Qed.

(** The caller's contact was born on the very day asked about. *)
Lemma upcoming_birthday_always_empty_witness :
  get_contact_with_upcoming_birthday 7 10 0 alice None (d 2025 1 3) sample_db
  = (Ok [], sample_db).
Proof.
  apply (upcoming_birthday_always_empty 7 10 0 alice None (d 2025 1 3) sample_db).
  - unfold plausible_today. simpl. lia.
  - lia.
Defined.

(** X19: the statement that the function executes, taken without paging
    ([offset = 0], [limit] at least the size of the table), selects the rows
    of the caller whose date of birth, year included, lies from
    [current_date] to [future_date], both ends included, and no other row. *)
Theorem upcoming_select_window (current_date future_date : Date.t) (limit : Z)
    (u : User.t) (table : list Contact.t) (c : Contact.t) :
  Z.of_nat (List.length table) <= limit ->
  In c (Query.run (upcoming_select current_date future_date limit 0 u) table)
  <-> In c table
      /\ Contact.user_id c = User.id u
      /\ Date.leb current_date (Contact.birthday c) = true
      /\ Date.leb (Contact.birthday c) future_date = true.
Proof.
  intro H. unfold upcoming_select. rewrite (run_whole _ limit table H).
  rewrite filter_In. simpl. unfold Date.between.
  rewrite !andb_true_iff, Z.eqb_eq. tauto.
Qed.

Lemma upcoming_select_window_witness :
  In (sample 2 (d 2025 1 3) alice)
     (Query.run (upcoming_select (d 2024 12 27) (d 2025 1 6) 10 0 alice)
        (rows sample_db))
  <-> In (sample 2 (d 2025 1 3) alice) (rows sample_db)
      /\ Contact.user_id (sample 2 (d 2025 1 3) alice) = User.id alice
      /\ Date.leb (d 2024 12 27) (Contact.birthday (sample 2 (d 2025 1 3) alice))
         = true
      /\ Date.leb (Contact.birthday (sample 2 (d 2025 1 3) alice)) (d 2025 1 6)
         = true.
Proof.
  apply (upcoming_select_window (d 2024 12 27) (d 2025 1 6) 10 alice
           (rows sample_db) (sample 2 (d 2025 1 3) alice)).
  simpl. lia.
Defined.

(** ** Path operations *)

(** X20: on a well-formed store and for an identifier of at least 1, the
    route [get_contact] either returns the caller's contact with that
    identifier, or raises [HTTPException] 404 with the detail NOT FOUND,
    and the latter exactly when the caller owns no contact with that
    identifier, be it that nobody does or that another user does.  The store
    is left as it was. *)
Theorem route_get_contact_found_or_404 (db : DB) (contact_id : Z) (u : User.t) :
  wf db -> 1 <= contact_id ->
  (exists c,
     In c (rows db) /\ selected contact_id u c
     /\ RoutesContacts.get_contact contact_id u db = (Return c, db))
  \/ ((forall c, In c (rows db) -> ~ selected contact_id u c)
      /\ RoutesContacts.get_contact contact_id u db
         = (Raise (HTTPException 404 "NOT FOUND"), db)).
Proof.
  intros [ND _] Hid.
  unfold RoutesContacts.get_contact, validated, contact_id_ok.
  replace (1 <=? contact_id) with true by (symmetry; now apply Z.leb_le).
  unfold await, get_contact, bind, execute, lift.
  destruct (pair_lookup_cases contact_id u (rows db) ND)
    as [[E Hnone]|[c [E [Hin Hsel]]]]; rewrite E.
  - right. split; [exact Hnone|reflexivity].
  - left. exists c. auto.
Qed.

Lemma route_get_contact_found_or_404_witness :
  (exists c,
     In c (rows sample_db) /\ selected 3 alice c
     /\ RoutesContacts.get_contact 3 alice sample_db = (Return c, sample_db))
  \/ ((forall c, In c (rows sample_db) -> ~ selected 3 alice c)
      /\ RoutesContacts.get_contact 3 alice sample_db
         = (Raise (HTTPException 404 "NOT FOUND"), sample_db)).
Proof.
  apply (route_get_contact_found_or_404 sample_db 3 alice).
  - exact sample_db_wf.
  - lia.
Defined.

(** X21: on a well-formed store and for an identifier of at least 1, the
    route [update_contact] either returns the caller's contact with all nine
    fields taken from the payload, or raises [HTTPException] 404 with the
    detail NOT FOUND and leaves the store as it was, the latter exactly when
    the caller owns no contact with that identifier. *)
Theorem route_update_contact_updated_or_404 (db : DB)
    (body : ContactUpdateSchema.t) (contact_id : Z) (u : User.t) :
  wf db -> 1 <= contact_id ->
  (exists c db',
     In c (rows db) /\ selected contact_id u c
     /\ RoutesContacts.update_contact body contact_id u db
        = (Return (replaced body c), db'))
  \/ ((forall c, In c (rows db) -> ~ selected contact_id u c)
      /\ RoutesContacts.update_contact body contact_id u db
         = (Raise (HTTPException 404 "NOT FOUND"), db)).
Proof.
  intros Hwf Hid.
  unfold RoutesContacts.update_contact, validated, contact_id_ok.
  replace (1 <=? contact_id) with true by (symmetry; now apply Z.leb_le).
  unfold await.
  destruct (pair_lookup_cases contact_id u (rows db) (proj1 Hwf))
    as [[E Hnone]|[c [_ [Hin Hsel]]]].
  - right. split; [exact Hnone|].
    unfold update_contact, bind, execute, lift. rewrite E. reflexivity.
  - left. exists c. eexists. split; [exact Hin|]. split; [exact Hsel|].
    rewrite (update_contact_full_replace_aux db contact_id body u c Hwf Hin Hsel).
    reflexivity.
Qed.

Lemma route_update_contact_updated_or_404_witness :
  (exists c db',
     In c (rows sample_db) /\ selected 1 bob c
     /\ RoutesContacts.update_contact new_values 1 bob sample_db
        = (Return (replaced new_values c), db'))
  \/ ((forall c, In c (rows sample_db) -> ~ selected 1 bob c)
      /\ RoutesContacts.update_contact new_values 1 bob sample_db
         = (Raise (HTTPException 404 "NOT FOUND"), sample_db)).
Proof.
  apply (route_update_contact_updated_or_404 sample_db new_values 1 bob).
  - exact sample_db_wf.
  - lia.
Defined.

(** X22: on a well-formed store and for an identifier of at least 1, the
    route [delete_contact] never raises: unlike the routes [get_contact] and
    [update_contact] it has no 404.  It returns the deleted contact, or
    [None] with the store as it was when the caller owns no contact with
    that identifier. *)
Theorem route_delete_contact_never_404 (db : DB) (contact_id : Z) (u : User.t) :
  wf db -> 1 <= contact_id ->
  (exists c db',
     In c (rows db) /\ selected contact_id u c
     /\ RoutesContacts.delete_contact contact_id u db = (Return (Some c), db')
     /\ forall r, In r (rows db') -> Contact.id r <> contact_id)
  \/ ((forall c, In c (rows db) -> ~ selected contact_id u c)
      /\ RoutesContacts.delete_contact contact_id u db = (Return None, db)).
Proof.
  intros Hwf Hid.
  unfold RoutesContacts.delete_contact, validated, contact_id_ok.
  replace (1 <=? contact_id) with true by (symmetry; now apply Z.leb_le).
  unfold await.
  destruct (pair_lookup_cases contact_id u (rows db) (proj1 Hwf))
    as [[E Hnone]|[c [_ [Hin Hsel]]]].
  - right. split; [exact Hnone|].
    unfold delete_contact, bind, execute, lift. rewrite E. reflexivity.
  - left. exists c. eexists. split; [exact Hin|]. split; [exact Hsel|].
    rewrite (delete_contact_present_aux db contact_id u c Hwf Hin Hsel).
    split; [reflexivity|].
    intros r Hr. cbn [rows] in Hr. now apply deleted_key_gone in Hr.
Qed.

Lemma route_delete_contact_never_404_witness :
  (exists c db',
     In c (rows sample_db) /\ selected 3 alice c
     /\ RoutesContacts.delete_contact 3 alice sample_db = (Return (Some c), db')
     /\ forall r, In r (rows db') -> Contact.id r <> 3)
  \/ ((forall c, In c (rows sample_db) -> ~ selected 3 alice c)
      /\ RoutesContacts.delete_contact 3 alice sample_db
         = (Return None, sample_db)).
Proof.
  apply (route_delete_contact_never_404 sample_db 3 alice).
  - exact sample_db_wf.
  - lia.
Defined.

(** X23: whatever query parameters a request carries, the route
    [get_contracts] either rejects them as invalid or returns at most 200
    contacts, each of them a row of the table owned by the caller; the store
    is left as it was. *)
Theorem route_get_contracts_bounded (limit offset : option Z) (u : User.t)
    (db : DB) :
  RoutesContacts.get_contracts limit offset u db
  = (Raise RequestValidationError, db)
  \/ exists l,
       RoutesContacts.get_contracts limit offset u db = (Return l, db)
       /\ (List.length l <= 200)%nat
       /\ Forall (fun c => In c (rows db) /\ Contact.user_id c = User.id u) l.
Proof.
  unfold RoutesContacts.get_contracts, validated. cbv zeta.
  destruct (limit_ok (query_value 10 limit) && offset_ok (query_value 0 offset))
    eqn:E; [right|left; reflexivity].
  unfold limit_ok, offset_ok in E.
  rewrite !andb_true_iff, !Z.leb_le in E. destruct E as [[Hl1 Hl2] Ho].
  unfold await. rewrite get_contacts_value.
  eexists. split; [reflexivity|]. split.
  - match goal with
    | |- context [firstn ?n ?l] => pose proof (firstn_le_length n l)
    end.
    lia.
  - apply Forall_forall. intros c Hc.
    apply In_firstn, In_skipn in Hc. unfold owned_by in Hc.
    apply filter_In in Hc. rewrite Z.eqb_eq in Hc. exact Hc.
Qed.

(** X24: whatever query parameters a request carries, and for a clock
    reading in the years 1 to 9997, the route of upcoming birthdays either
    rejects the parameters as invalid or returns the empty list: it never
    returns a contact. *)
Theorem route_upcoming_birthday_empty (upcoming_days limit offset : option Z)
    (u : User.t) (today : Date.t) (db : DB) :
  plausible_today today ->
  RoutesBirthday.get_contact_with_upcoming_birthday upcoming_days limit offset
    u today db
  = (Raise RequestValidationError, db)
  \/ RoutesBirthday.get_contact_with_upcoming_birthday upcoming_days limit
       offset u today db
     = (Return [], db).
Proof.
  intro Ht.
  unfold RoutesBirthday.get_contact_with_upcoming_birthday, validated.
  cbv zeta.
  destruct (upcoming_days_ok (query_value 7 upcoming_days)
            && limit_ok (query_value 10 limit)
            && offset_ok (query_value 0 offset)) eqn:E; [right|left; reflexivity].
  unfold upcoming_days_ok in E.
  rewrite !andb_true_iff, !Z.leb_le in E. destruct E as [[[Hd1 Hd2] _] _].
  unfold await, get_contact_with_upcoming_birthday.
  destruct (add_days_in_range today (query_value 7 upcoming_days) Ht
              ltac:(lia)) as [fd ->].
  reflexivity.
Qed.

(** No query parameter is given: the window is the default of 7 days. *)
Lemma route_upcoming_birthday_empty_witness :
  RoutesBirthday.get_contact_with_upcoming_birthday None None None alice
    (d 2024 12 27) sample_db
  = (Raise RequestValidationError, sample_db)
  \/ RoutesBirthday.get_contact_with_upcoming_birthday None None None alice
       (d 2024 12 27) sample_db
     = (Return [], sample_db).
Proof.
  apply (route_upcoming_birthday_empty None None None alice (d 2024 12 27)
           sample_db).
  unfold plausible_today. simpl. lia.
Defined.


(** ** Delete-any, further *)

(** X25: on a well-formed store, after [delete_all_contact] has been called
    with an identifier, by whomever, [get_contact] with that identifier
    returns [None] for every user, the owner included. *)
Theorem delete_all_contact_then_get_contact (db : DB) (contact_id : Z)
    (u v : User.t) :
  wf db ->
  exists r db',
    delete_all_contact contact_id u db = (Ok r, db')
    /\ get_contact contact_id v db' = (Ok None, db').
Proof.
  intros [ND _].
  destruct (id_lookup_cases contact_id (rows db) ND)
    as [[E Hnone]|[c [E [Hin Hid]]]].
  - exists None, db. split.
    + unfold delete_all_contact, bind, execute, lift. rewrite E. reflexivity.
    + unfold get_contact, bind, execute, lift.
      rewrite pair_lookup_absent; [reflexivity|].
      intros r Hr [Hk _]. now apply (Hnone r).
  - eexists (Some c), _. split.
    + unfold delete_all_contact, bind, execute, lift. rewrite E. reflexivity.
    + unfold get_contact, bind, execute, lift. cbn [rows].
      rewrite pair_lookup_absent; [reflexivity|].
      intros r Hr [Hk _]. apply deleted_key_gone in Hr. congruence.
Qed.

(** Alice deletes contact 3; bob, who owned it, looks it up. *)
Lemma delete_all_contact_then_get_contact_witness :
  exists r db',
    delete_all_contact 3 alice sample_db = (Ok r, db')
    /\ get_contact 3 bob db' = (Ok None, db').
Proof.
  apply (delete_all_contact_then_get_contact sample_db 3 alice bob).
  exact sample_db_wf.
Defined.
